(** * precip-monitor: the weather client, the observation logger, the sync
    loop, the site store, the site form and the compass label of
    [src/App.jsx], embedded and verified.
    JavaScript numbers are IEEE 754 binary64 values.  They are modelled by
    the specification floats of the standard library ([spec_float] with 53
    bits of precision and exponents up to 1024), whose operations are plain
    functions: every arithmetic step below rounds as the JavaScript engine
    rounds it.  Asynchronous functions are computations over the state of
    the program that return, throw, or stay suspended at an [await]. *)

From Stdlib Require Import ZArith Lia Bool.
From Stdlib Require Import Floats.SpecFloat.
From stdpp Require Import gmap strings pretty list fin_maps.

Open Scope Z_scope.

(* ===================================================================== *)
(** * JavaScript numbers *)
(* ===================================================================== *)

Definition prec : Z := 53.
Definition emax : Z := 1024.

Abbreviation number := spec_float.

Definition js_add : number -> number -> number := SFadd prec emax.
Definition js_mul : number -> number -> number := SFmul prec emax.
Definition js_div : number -> number -> number := SFdiv prec emax.

(** [a <= b] and [a >= b] on numbers: false as soon as one side is NaN. *)
Definition js_le (a b : number) : bool := SFleb a b.
Definition js_ge (a b : number) : bool := SFleb b a.

(** The double whose value is the integer [n] (exact when |n| < 2^53). *)
Definition of_Z (n : Z) : number := binary_normalize prec emax n 0 false.

(** The double denoted by the decimal literal [m / 10^k].  [m] and [10^k]
    are exact doubles for the literals of this program and division rounds
    correctly, so this is the nearest double, the value the parser yields. *)
Definition lit (m : Z) (k : Z) : number := js_div (of_Z m) (of_Z (10 ^ k)).

Definition isNaN (x : number) : bool :=
  match x with S754_nan => true | _ => false end.

(** Truthiness of a number: [0], [-0] and [NaN] are falsy. *)
Definition truthy (x : number) : bool :=
  match x with
  | S754_zero _ | S754_nan => false
  | _ => true
  end.

(** [Math.round]: the integral number closest to [x], ties towards
    +infinity; NaN, the infinities, the zeros and integral values are
    returned as they are, and a result of zero keeps the sign of [x]. *)
Definition Math_round (x : number) : number :=
  match x with
  | S754_finite s m e =>
      if 0 <=? e then x
      else
        let n := (2 * cond_Zopp s (Zpos m) + 2 ^ (- e)) / 2 ^ (1 - e) in
        if n =? 0 then S754_zero s else of_Z n
  | _ => x
  end.

(** The remainder operator [a % b] (the sign of the result is the sign of
    the dividend; the result is exact). *)
Definition js_rem (a b : number) : number :=
  match a, b with
  | S754_nan, _ | _, S754_nan => S754_nan
  | S754_infinity _, _ => S754_nan
  | _, S754_zero _ => S754_nan
  | S754_zero _, _ => a
  | S754_finite _ _ _, S754_infinity _ => a
  | S754_finite sa ma ea, S754_finite _ mb eb =>
      let e := Z.min ea eb in
      let r := Z.rem (Zpos ma * 2 ^ (ea - e)) (Zpos mb * 2 ^ (eb - e)) in
      if r =? 0 then S754_zero sa
      else binary_normalize prec emax (cond_Zopp sa r) e false
  end.

(** The array index a number denotes when it is used as a property key
    of an array: a non-negative integral value (and [-0] reads slot 0). *)
Definition array_index (x : number) : option nat :=
  match x with
  | S754_zero _ => Some 0%nat
  | S754_finite false m e =>
      if 0 <=? e then Some (Z.to_nat (Zpos m * 2 ^ e))
      else if (Zpos m) mod 2 ^ (- e) =? 0 then Some (Z.to_nat (Zpos m / 2 ^ (- e)))
      else None
  | _ => None
  end.

(* ===================================================================== *)
(** * Promises, exceptions and asynchronous functions *)
(* ===================================================================== *)

Definition Time := Z.

(** What an [async] function or an awaited promise can throw: an [Error]
    object, by its message. *)
Inductive Exn : Type :=
  | Error (message : string).

(** How a promise handed out by the outside world ends: it resolves, it
    rejects, or it never settles. *)
Inductive Outcome (A : Type) : Type :=
  | Resolved (a : A)
  | Rejected (e : Exn)
  | Pending.
Arguments Resolved {A} a.
Arguments Rejected {A} e.
Arguments Pending {A}.

(** How a run of an [async] function ends: it returns, it throws, or it
    stays suspended at an [await] whose promise never settles. *)
Inductive Result (A : Type) : Type :=
  | Returned (a : A)
  | Threw (e : Exn)
  | Blocked.
Arguments Returned {A} a.
Arguments Threw {A} e.
Arguments Blocked {A}.

(** An asynchronous computation over a program state [St]. *)
Definition M (St A : Type) : Type := St -> St * Result A.

Definition ret {St A} (a : A) : M St A := fun s => (s, Returned a).

Definition bind {St A B} (m : M St A) (k : A -> M St B) : M St B :=
  fun s =>
    match m s with
    | (s', Returned a) => k a s'
    | (s', Threw e) => (s', Threw e)
    | (s', Blocked) => (s', Blocked)
    end.

Definition throw {St A} (e : Exn) : M St A := fun s => (s, Threw e).

(** [await p] *)
Definition await {St A} (p : Outcome A) : M St A :=
  fun s =>
    match p with
    | Resolved a => (s, Returned a)
    | Rejected e => (s, Threw e)
    | Pending => (s, Blocked)
    end.

(** [try { m } catch (e) { h e }] *)
Definition try_catch {St A} (m : M St A) (h : Exn -> M St A) : M St A :=
  fun s =>
    match m s with
    | (s', Threw e) => h e s'
    | r => r
    end.

Definition modify {St} (f : St -> St) : M St unit := fun s => (f s, Returned tt).

Notation "x <- c1 ;; c2" := (bind c1 (fun x => c2))
  (at level 100, c1 at next level, right associativity).
Notation "c1 ;; c2" := (bind c1 (fun _ => c2))
  (at level 100, right associativity).

(* ===================================================================== *)
(** * Data model *)
(* ===================================================================== *)

(** A monitored site, as [loadSites] builds it: [{ id, name, state, lat, lon }]. *)
Record Site : Type := {
  site_id : string;
  site_name : string;
  site_state : string;
  site_lat : number;
  site_lon : number;
}.

(** The object [fetchWeatherData] returns.  [None] is JavaScript's [null]. *)
Record Weather : Type := {
  precip24hr : number;
  tempF : option number;
  humidity : option number;
  dewPointF : option number;
  windSpeedMph : option number;
  windDir : option number;
}.

(** One hourly series of the response: an array of numbers and nulls. *)
Abbreviation series := (list (option number)).

(** [data.hourly]; a member that the response lacks is [None]. *)
Record Hourly : Type := {
  precipitation : option series;
  temperature_2m : option series;
  relative_humidity_2m : option series;
  dew_point_2m : option series;
  wind_speed_10m : option series;
  wind_direction_10m : option series;
}.

(** The parsed response body [data]. *)
Record Forecast : Type := { hourly : option Hourly }.

(** The request [fetchWeatherData] sends, by its query parameters. *)
Record Request : Type := {
  latitude : number;
  longitude : number;
  hourly_params : string;
  timezone : string;
  past_hours : Z;
  forecast_hours : Z;
}.

(** The HTTP response: its status and the promise [res.json()]. *)
Record Response : Type := {
  status : Z;
  json : Outcome Forecast;
}.

(** [res.ok]: the status is in the range 200-299. *)
Definition ok (res : Response) : bool :=
  (200 <=? status res) && (status res <=? 299).

(** A document of the [observations] collection. *)
Record Observation : Type := {
  obs_siteId : string;
  obs_weather : Weather;
  obs_timestamp : Time;
}.

(** What the program does to the outside world, in the order it does it. *)
Inductive Event : Type :=
  | EvFetch (req : Request)
  | EvAddDoc (collection : string) (doc : Observation)
  | EvDelay (ms : Z)
  | EvConsoleError (message : string) (e : Exn).

(** The outside world as one call sees it: how the weather service
    answers a request, how Firestore answers an [addDoc], and the clock. *)
Record World : Type := {
  http : Request -> Outcome Response;
  firestore_add : string -> Observation -> Outcome string;
  now : Time;
}.

(* ===================================================================== *)
(** * Constants and unit conversion *)
(* ===================================================================== *)

Definition MM_TO_INCHES : number := lit 393701 7.
Definition FETCH_DELAY : Z := 100.
Definition WEATHER_PARAMS : string :=
  "precipitation,temperature_2m,relative_humidity_2m,dew_point_2m,wind_speed_10m,wind_direction_10m".

(** [Math.round((c * 9 / 5 + 32) * 10) / 10], or [null] for [null]. *)
Definition celsiusToFahrenheit (c : option number) : option number :=
  match c with
  | Some c =>
      Some (js_div
              (Math_round
                 (js_mul (js_add (js_div (js_mul c (of_Z 9)) (of_Z 5)) (of_Z 32))
                         (of_Z 10)))
              (of_Z 10))
  | None => None
  end.

(** [Math.round(k * 0.621371 * 10) / 10], or [null] for [null]. *)
Definition kphToMph (k : option number) : option number :=
  match k with
  | Some k =>
      Some (js_div
              (Math_round (js_mul (js_mul k (lit 621371 6)) (of_Z 10)))
              (of_Z 10))
  | None => None
  end.

(** [arr && arr.length > 0 ? arr[arr.length - 1] : null] *)
Definition lastVal (arr : option series) : option number :=
  match arr with
  | Some a =>
      if (0 <? Z.of_nat (length a))
      then mjoin (a !! (length a - 1)%nat)
      else None
  | None => None
  end.

(** [v || 0] on an entry of a series. *)
Definition or_zero (v : option number) : number :=
  match v with
  | Some x => if truthy x then x else of_Z 0
  | None => of_Z 0
  end.

(* ===================================================================== *)
(** * State of the weather hook *)
(* ===================================================================== *)

(** The cache: a missing key is "absent", a key bound to [None] is
    "explicitly null". *)
Abbreviation cache := (gmap string (option Weather)).

(** The state of the hook, and the trace of what the program did. *)
Record Sys : Type := {
  trace : list Event;
  weatherData : cache;
  fetching : bool;
  lastUpdated : option Time;
}.

Definition emit (ev : Event) : M Sys unit :=
  modify (fun s => {| trace := trace s ++ [ev]; weatherData := weatherData s;
                      fetching := fetching s; lastUpdated := lastUpdated s |}).

Definition setFetching (b : bool) : M Sys unit :=
  modify (fun s => {| trace := trace s; weatherData := weatherData s;
                      fetching := b; lastUpdated := lastUpdated s |}).

Definition setLastUpdated (t : Time) : M Sys unit :=
  modify (fun s => {| trace := trace s; weatherData := weatherData s;
                      fetching := fetching s; lastUpdated := Some t |}).

(** [setWeatherData(prev => f prev)] *)
Definition setWeatherData (f : cache -> cache) : M Sys unit :=
  modify (fun s => {| trace := trace s; weatherData := f (weatherData s);
                      fetching := fetching s; lastUpdated := lastUpdated s |}).

(* ===================================================================== *)
(** * Weather client and observation logger *)
(* ===================================================================== *)

(** The URL of [fetchWeatherData], by its query parameters. *)
Definition weather_request (la lo : number) : Request :=
  {| latitude := la; longitude := lo; hourly_params := WEATHER_PARAMS;
     timezone := "America/Chicago"; past_hours := 24; forecast_hours := 0 |}.

Definition no_hourly : Hourly :=
  {| precipitation := None; temperature_2m := None;
     relative_humidity_2m := None; dew_point_2m := None;
     wind_speed_10m := None; wind_direction_10m := None |}.

(** [(h.precipitation || []).reduce((sum, v) => sum + (v || 0), 0)] *)
Definition precipMm (h : Hourly) : number :=
  fold_left (fun sum v => js_add sum (or_zero v))
            (default [] (precipitation h)) (of_Z 0).

(** The object literal that [fetchWeatherData] returns for [data]. *)
Definition weather_of (data : Forecast) : Weather :=
  let h := default no_hourly (hourly data) in
  {| precip24hr :=
       js_div (Math_round (js_mul (js_mul (precipMm h) MM_TO_INCHES) (of_Z 100)))
              (of_Z 100);
     tempF := celsiusToFahrenheit (lastVal (temperature_2m h));
     humidity := lastVal (relative_humidity_2m h);
     dewPointF := celsiusToFahrenheit (lastVal (dew_point_2m h));
     windSpeedMph := kphToMph (lastVal (wind_speed_10m h));
     windDir := lastVal (wind_direction_10m h) |}.

Definition fetchWeatherData (w : World) (la lo : number) : M Sys Weather :=
  let url := weather_request la lo in
  emit (EvFetch url) ;;
  res <- await (http w url) ;;
  if negb (ok res) then throw (Error ("Weather API error: " +:+ pretty (status res)))
  else
    data <- await (json res) ;;
    ret (weather_of data).

(** [logObservation]: the append is awaited inside [try]; a rejection is
    reported on the console and swallowed. *)
Definition logObservation (w : World) (siteId : string) (weather : Weather)
    : M Sys unit :=
  try_catch
    (let doc := {| obs_siteId := siteId; obs_weather := weather;
                   obs_timestamp := now w |} in
     emit (EvAddDoc "observations" doc) ;;
     _ <- await (firestore_add w "observations" doc) ;;
     ret tt)
    (fun e =>
       emit (EvConsoleError ("Failed to log observation for " +:+ siteId +:+ ":") e)).

(** [delay(ms)]: the timer always fires. *)
Definition delay (ms : Z) : M Sys unit := emit (EvDelay ms).

(* ===================================================================== *)
(** * Weather sync loop (useWeatherData) *)
(* ===================================================================== *)

(** [{ ...prev, ...results }]: the keys of [results] win. *)
Definition spread (prev results : cache) : cache := results ∪ prev.

(** The [for] loop of [fetchAll], at index [i] with [rest] the sites from
    index [i] on and [n = sitesToFetch.length].  [timeline j] is the
    outside world while site number [j] is processed.  [results] is the
    buffer; the assignment in the [catch] block overwrites the one of the
    [try] block, so it is applied to the buffer the iteration started with. *)
Fixpoint fetch_loop (timeline : nat -> World) (n : Z) (i : nat)
    (rest : list Site) (results : cache) : M Sys cache :=
  match rest with
  | [] => ret results
  | site :: rest' =>
      results' <-
        try_catch
          (weather <- fetchWeatherData (timeline i) (site_lat site) (site_lon site) ;;
           let results' := <[site_id site := Some weather]> results in
           logObservation (timeline i) (site_id site) weather ;;
           ret results')
          (fun e =>
             emit (EvConsoleError ("Failed to fetch weather for " +:+ site_name site +:+ ":") e) ;;
             ret (<[site_id site := None]> results)) ;;
      (if Z.of_nat i <? n - 1 then delay FETCH_DELAY else ret tt) ;;
      fetch_loop timeline n (S i) rest' results'
  end.

(** [fetchAll(sitesToFetch)]; [None] is a [null] or [undefined] argument.
    [new Date()] reads the clock of the world after the last site. *)
Definition fetchAll (timeline : nat -> World) (sitesToFetch : option (list Site))
  : M Sys unit :=
  match sitesToFetch with
  | None | Some [] => ret tt
  | Some sites =>
      setFetching true ;;
      results <- fetch_loop timeline (Z.of_nat (length sites)) 0 sites ∅ ;;
      setWeatherData (fun prev => spread prev results) ;;
      setLastUpdated (now (timeline (length sites))) ;;
      setFetching false
  end.

(* ===================================================================== *)
(** * Site store (useSites) over Firestore *)
(* ===================================================================== *)

(** A Firestore document of one of the two collections. *)
Inductive Doc : Type :=
  | SiteDoc (name state : string) (la lo : number)
  | ObservationDoc (o : Observation).

(** The database: documents by collection path and document id. *)
Abbreviation firestore := (gmap (string * string) Doc).

(** [doc(db, path, id)] *)
Definition doc (path id : string) : string * string := (path, id).

(** The state of [useSites] together with the database behind it. *)
Record Store : Type := {
  db : firestore;
  sites : list Site;
}.

(** [deleteDoc(ref)]: [ack] is how the service answers; the document is
    gone once the promise resolves (a missing document resolves too). *)
Definition deleteDoc (ack : Outcome unit) (ref : string * string) : M Store unit :=
  await ack ;;
  modify (fun s => {| db := delete ref (db s); sites := sites s |}).

Definition deleteSiteDoc (ack : Outcome unit) (id : string) : M Store unit :=
  deleteDoc ack (doc "sites" id).

(** [setSites(prev => f prev)] *)
Definition setSites (f : list Site -> list Site) : M Store unit :=
  modify (fun s => {| db := db s; sites := f (sites s) |}).

(** [remove(id)] of [useSites]. *)
Definition remove (ack : Outcome unit) (id : string) : M Store unit :=
  deleteSiteDoc ack id ;;
  setSites (fun prev => filter (fun s => site_id s ≠ id) prev).

(* ===================================================================== *)
(** * Site form *)
(* ===================================================================== *)

(** The object handed to [onSave]. *)
Record SiteInput : Type := {
  in_name : string;
  in_state : string;
  in_lat : number;
  in_lon : number;
}.

(** The four text fields of the form. *)
Record Form : Type := {
  form_name : string;
  form_state : string;
  form_lat : string;
  form_lon : string;
}.

Section SiteForm.
(** The built-ins [String.prototype.trim], [String.prototype.toUpperCase]
    and [parseFloat]. *)
Variable trim : string -> string.
Variable toUpperCase : string -> string.
Variable parseFloat : string -> number.

Definition parsedLat (f : Form) : number := parseFloat (form_lat f).
Definition parsedLon (f : Form) : number := parseFloat (form_lon f).

Definition validCoords (f : Form) : bool :=
  negb (isNaN (parsedLat f)) && negb (isNaN (parsedLon f))
  && js_ge (parsedLat f) (of_Z (-90)) && js_le (parsedLat f) (of_Z 90)
  && js_ge (parsedLon f) (of_Z (-180)) && js_le (parsedLon f) (of_Z 180).

(** A string is truthy when it is not empty. *)
Definition canSave (f : Form) : bool :=
  bool_decide (trim (form_name f) ≠ "")
  && bool_decide (trim (form_state f) ≠ "")
  && validCoords f.

(** [handleSubmit]: [Some site] is the call [onSave(site)]; [None] is
    the early return. *)
Definition handleSubmit (f : Form) : option SiteInput :=
  if negb (canSave f) then None
  else Some {| in_name := trim (form_name f);
               in_state := toUpperCase (trim (form_state f));
               in_lat := parsedLat f;
               in_lon := parsedLon f |}.
End SiteForm.

(* ===================================================================== *)
(** * Compass label *)
(* ===================================================================== *)

Definition dirs : list string :=
  ["N"; "NNE"; "NE"; "ENE"; "E"; "ESE"; "SE"; "SSE";
   "S"; "SSW"; "SW"; "WSW"; "W"; "WNW"; "NW"; "NNW"].

(** [Math.round(deg / 22.5) % 16] *)
Definition windDirIndex (deg : number) : number :=
  js_rem (Math_round (js_div deg (lit 225 1))) (of_Z 16).

(** [windDirLabel(deg)]; the argument [None] is [null], the result [None]
    is [undefined] (an index that is no slot of [dirs]). *)
Definition windDirLabel (deg : option number) : option string :=
  match deg with
  | None => Some "---"
  | Some d =>
      match array_index (windDirIndex d) with
      | Some i => dirs !! i
      | None => None
      end
  end.

(* ===================================================================== *)
(** * Notions used to state the properties *)
(* ===================================================================== *)

(** [round(x, k decimals)]: scale by [10^k], round to an integer, scale back. *)
Definition round_dp (k : Z) (x : number) : number :=
  js_div (Math_round (js_mul x (of_Z (10 ^ k)))) (of_Z (10 ^ k)).

(** An entry of a series with a missing (null) entry counted as 0. *)
Definition counted (v : option number) : number := default (of_Z 0) v.

(** The sum of a series, taken from the first entry to the last. *)
Definition sum_series (vs : series) : number :=
  fold_left js_add (map counted vs) (of_Z 0).

(** A well-formed double. *)
Definition valid (x : number) : Prop := valid_binary prec emax x = true.

(** An entry as JSON can denote it: null, or a well-formed number that is
    not NaN. *)
Definition json_number (v : option number) : Prop :=
  match v with
  | Some x => valid x /\ x <> S754_nan
  | None => True
  end.

(** What holds of the running sum of a series: it never is -0 and its
    exponent is not below the smallest one of the format. *)
Definition sum_ok (x : number) : Prop :=
  match x with
  | S754_zero s => s = false
  | S754_finite _ _ e => emin prec emax <= e
  | _ => True
  end.

(** The last value of a series; null for an empty or missing series. *)
Definition last_value (arr : option series) : option number :=
  mjoin (last (default [] arr)).

(** Celsius to Fahrenheit and km/h to mph, to one decimal. *)
Definition to_fahrenheit (c : number) : number :=
  round_dp 1 (js_add (js_div (js_mul c (of_Z 9)) (of_Z 5)) (of_Z 32)).
Definition to_mph (k : number) : number :=
  round_dp 1 (js_mul k (lit 621371 6)).

(** The state after one more event. *)
Definition emitted (s : Sys) (evs : list Event) : Sys :=
  {| trace := trace s ++ evs; weatherData := weatherData s;
     fetching := fetching s; lastUpdated := lastUpdated s |}.

(** How [fetchWeatherData] ends for a site in world [w] (the state it
    starts from has no influence, see [fetchWeatherData_result]). *)
Definition fetch_result (w : World) (site : Site) : Result Weather :=
  (fetchWeatherData w (site_lat site) (site_lon site)
     {| trace := []; weatherData := ∅; fetching := false; lastUpdated := None |}).2.

(** The precipitation series of a response body ([[]] when it has none). *)
Definition precipitation_values (data : Forecast) : series :=
  default [] (precipitation (default no_hourly (hourly data))).

(** The weather fetches and the rate-limit delays of a trace. *)
Definition net (ev : Event) : option Event :=
  match ev with
  | EvFetch _ | EvDelay _ => Some ev
  | _ => None
  end.

(** [between d l]: the elements of [l] with [d] between consecutive ones. *)
Fixpoint between {A} (d : A) (l : list A) : list A :=
  match l with
  | [] => []
  | [x] => [x]
  | x :: rest => x :: d :: between d rest
  end.

Definition site_request (site : Site) : Request :=
  weather_request (site_lat site) (site_lon site).

(** One fetch per site in list order, one delay between consecutive ones. *)
Definition schedule (sites : list Site) : list Event :=
  between (EvDelay FETCH_DELAY) (map (fun site => EvFetch (site_request site)) sites).

(** Every promise the world hands out settles. *)
Definition settles (w : World) : Prop :=
  (forall req, http w req <> Pending)
  /\ (forall req res, http w req = Resolved res -> json res <> Pending)
  /\ (forall path d, firestore_add w path d <> Pending).

(** What a cycle records for a site: its weather, or null when the fetch
    threw. *)
Definition entry (w : World) (site : Site) : option Weather :=
  match fetch_result w site with
  | Returned weather => Some weather
  | _ => None
  end.

(** The buffer after the sites [rest], processed from index [i] on. *)
Fixpoint cycle_results (timeline : nat -> World) (i : nat) (rest : list Site)
    (results : cache) : cache :=
  match rest with
  | [] => results
  | site :: rest' =>
      cycle_results timeline (S i) rest'
        (<[site_id site := entry (timeline i) site]> results)
  end.

(** The observation [logObservation] appends for a site. *)
Definition observation (w : World) (site : Site) (weather : Weather) : Observation :=
  {| obs_siteId := site_id site; obs_weather := weather; obs_timestamp := now w |}.

(** The rest of an iteration once the [try] statement is done. *)
Definition continue (timeline : nat -> World) (n : Z) (i : nat)
    (rest : list Site) (results : cache) : M Sys cache :=
  (if Z.of_nat i <? n - 1 then delay FETCH_DELAY else ret tt) ;;
  fetch_loop timeline n (S i) rest results.

(** The fetches and delays of the loop from index [i] on. *)
Fixpoint loop_net (n : Z) (i : nat) (rest : list Site) : list Event :=
  match rest with
  | [] => []
  | site :: rest' =>
      EvFetch (site_request site)
      :: (if Z.of_nat i <? n - 1 then [EvDelay FETCH_DELAY] else [])
      ++ loop_net n (S i) rest'
  end.

(** The state a completed cycle leaves behind. *)
Definition completed (timeline : nat -> World) (sites : list Site) (s : Sys)
    (evs : list Event) : Sys :=
  {| trace := trace s ++ evs;
     weatherData := spread (weatherData s) (cycle_results timeline 0 sites ∅);
     fetching := false;
     lastUpdated := Some (now (timeline (length sites))) |}.

(** The requests fetched and the delays waited, in trace order. *)
Definition fetches (evs : list Event) : list Request :=
  omap (fun ev => match ev with EvFetch req => Some req | _ => None end) evs.
Definition delays (evs : list Event) : list Z :=
  omap (fun ev => match ev with EvDelay ms => Some ms | _ => None end) evs.

(* ===================================================================== *)
(** * Sample sites and worlds *)
(* ===================================================================== *)

Definition site_a : Site :=
  {| site_id := "a"; site_name := "Fargo West"; site_state := "ND";
     site_lat := lit 46877 3; site_lon := lit (-96789) 3 |}.

Definition site_b : Site :=
  {| site_id := "b"; site_name := "Rochester"; site_state := "MN";
     site_lat := of_Z 44; site_lon := of_Z (-93) |}.

(** A response body: 0, 0.5 and 1.0 mm of rain, 20 degrees Celsius and
    10 km/h at the last hour. *)
Definition sample_body : Forecast :=
  {| hourly := Some
       {| precipitation := Some [Some (of_Z 0); Some (lit 5 1); Some (of_Z 1)];
          temperature_2m := Some [Some (of_Z 18); None; Some (of_Z 20)];
          relative_humidity_2m := Some [Some (of_Z 60); Some (of_Z 55)];
          dew_point_2m := Some [Some (of_Z 10)];
          wind_speed_10m := Some [Some (of_Z 7); Some (of_Z 10)];
          wind_direction_10m := Some [] |} |}.

(** The service answers 200 with [sample_body]; appends succeed. *)
Definition world_up : World :=
  {| http := fun _ => Resolved {| status := 200; json := Resolved sample_body |};
     firestore_add := fun _ _ => Resolved "obs";
     now := 1770000000000 |}.

(** The service answers 500. *)
Definition world_500 : World :=
  {| http := fun _ => Resolved {| status := 500;
                                  json := Rejected (Error "Unexpected token") |};
     firestore_add := fun _ _ => Resolved "obs";
     now := 1770000000200 |}.

(** The service is up; Firestore rejects the append. *)
Definition world_append_rejected : World :=
  {| http := http world_up;
     firestore_add := fun _ _ => Rejected (Error "permission-denied");
     now := 1770000000000 |}.

(** The service is up; the append never settles (Firestore is offline). *)
Definition world_append_pending : World :=
  {| http := http world_up;
     firestore_add := fun _ _ => Pending;
     now := 1770000000000 |}.

Definition sys0 : Sys :=
  {| trace := []; weatherData := ∅; fetching := false; lastUpdated := None |}.

(** Site "a" is fetched while the service is up, site "b" gets a 500. *)
Definition timeline_b_fails (i : nat) : World :=
  match i with 1%nat => world_500 | _ => world_up end.

(** A cache left by an earlier cycle: a stale record for "b", a null
    for a site "z" that is no longer monitored. *)
Definition sys_stale : Sys :=
  {| trace := [];
     weatherData := <["b" := Some (weather_of sample_body)]> (<["z" := None]> ∅);
     fetching := false; lastUpdated := Some 1769996400000 |}.

(** A store with both sites and two observations logged for "a". *)
Definition store0 : Store :=
  {| db := <[doc "sites" "a" := SiteDoc "Fargo West" "ND" (lit 46877 3) (lit (-96789) 3)]>
           (<[doc "sites" "b" := SiteDoc "Rochester" "MN" (of_Z 44) (of_Z (-93))]>
           (<[doc "observations" "o1" :=
                ObservationDoc (observation world_up site_a (weather_of sample_body))]>
           (<[doc "observations" "o2" :=
                ObservationDoc (observation world_500 site_a (weather_of sample_body))]> ∅)));
     sites := [site_a; site_b] |}.

(** Stand-ins for the built-ins of the form on the inputs of the samples:
    trimming of spaces, upper case of ASCII letters, and [parseFloat] on
    three literals (NaN elsewhere). *)
Fixpoint ltrim (s : string) : string :=
  match s with
  | String c s' => if Ascii.eqb c (Ascii.ascii_of_nat 32) then ltrim s' else s
  | EmptyString => s
  end.
Definition sample_trim (s : string) : string :=
  String.rev (ltrim (String.rev (ltrim s))).

Definition upper_ascii (c : Ascii.ascii) : Ascii.ascii :=
  let n := Ascii.nat_of_ascii c in
  if ((97 <=? n) && (n <=? 122))%nat then Ascii.ascii_of_nat (n - 32) else c.
Fixpoint sample_upper (s : string) : string :=
  match s with
  | String c s' => String (upper_ascii c) (sample_upper s')
  | EmptyString => EmptyString
  end.

Definition sample_parseFloat (s : string) : number :=
  if String.eqb s "46.877" then lit 46877 3
  else if String.eqb s "-96.789" then lit (-96789) 3
  else if String.eqb s "91" then of_Z 91
  else S754_nan.

Definition form_fargo : Form :=
  {| form_name := " Fargo West "; form_state := "nd";
     form_lat := "46.877"; form_lon := "-96.789" |}.

Definition form_out_of_range : Form :=
  {| form_name := "North Pole"; form_state := "XX";
     form_lat := "91"; form_lon := "-96.789" |}.

(* ===================================================================== *)
(** * Site store: loading, adding and updating (useSites) *)
(* ===================================================================== *)

(** [getDocs(collection(db, path))]: the documents of a collection, each
    with its id.  Their order is the one of the map. *)
Definition docs_in (path : string) (d : firestore) : list (string * Doc) :=
  omap (fun kv : (string * string) * Doc =>
          if decide (kv.1.1 = path) then Some (kv.1.2, kv.2) else None)
       (map_to_list d).

Definition getDocs (ack : Outcome unit) (path : string)
  : M Store (list (string * Doc)) :=
  await ack ;;
  (fun s => (s, Returned (docs_in path (db s)))).

(** [{ id: d.id, ...d.data() }] for a document of the sites collection. *)
Definition site_of_doc (d : string * Doc) : option Site :=
  match d.2 with
  | SiteDoc name state la lo =>
      Some {| site_id := d.1; site_name := name; site_state := state;
              site_lat := la; site_lon := lo |}
  | ObservationDoc _ => None
  end.

Definition loadSites (ack : Outcome unit) : M Store (list Site) :=
  snapshot <- getDocs ack "sites" ;;
  ret (omap site_of_doc snapshot).

(** The fields of a site as the form hands them over, stored as a document. *)
Definition site_doc (site : SiteInput) : Doc :=
  SiteDoc (in_name site) (in_state site) (in_lat site) (in_lon site).

(** [{ id: ref.id, ...site }] *)
Definition with_id (id : string) (site : SiteInput) : Site :=
  {| site_id := id; site_name := in_name site; site_state := in_state site;
     site_lat := in_lat site; site_lon := in_lon site |}.

(** [addDoc(collection(db, path), data)]: [ack] carries the id the service
    generated for the new document. *)
Definition addDoc (ack : Outcome string) (path : string) (data : Doc)
  : M Store string :=
  id <- await ack ;;
  modify (fun s => {| db := <[doc path id := data]> (db s); sites := sites s |}) ;;
  ret id.

Definition addSiteDoc (ack : Outcome string) (site : SiteInput) : M Store Site :=
  id <- addDoc ack "sites" (site_doc site) ;;
  ret (with_id id site).

(** [add(site)] of [useSites]. *)
Definition add (ack : Outcome string) (site : SiteInput) : M Store Site :=
  newSite <- addSiteDoc ack site ;;
  setSites (fun prev => prev ++ [newSite]) ;;
  ret newSite.

(** The [data] of an update: the fields it sets. *)
Record SitePatch : Type := {
  set_name : option string;
  set_state : option string;
  set_lat : option number;
  set_lon : option number;
}.

(** [{ ...s, ...data }] *)
Definition patch_site (data : SitePatch) (s : Site) : Site :=
  {| site_id := site_id s;
     site_name := default (site_name s) (set_name data);
     site_state := default (site_state s) (set_state data);
     site_lat := default (site_lat s) (set_lat data);
     site_lon := default (site_lon s) (set_lon data) |}.

(** The same fields set in a stored site document. *)
Definition patch_doc (data : SitePatch) (d : Doc) : Doc :=
  match d with
  | SiteDoc name state la lo =>
      SiteDoc (default name (set_name data)) (default state (set_state data))
              (default la (set_lat data)) (default lo (set_lon data))
  | ObservationDoc _ => d
  end.

(** [updateDoc(ref, data)]: the given fields are set once the promise
    resolves. *)
Definition updateDoc (ack : Outcome unit) (ref : string * string) (data : SitePatch)
  : M Store unit :=
  await ack ;;
  modify (fun s => {| db := alter (patch_doc data) ref (db s); sites := sites s |}).

Definition updateSiteDoc (ack : Outcome unit) (id : string) (data : SitePatch)
  : M Store unit :=
  updateDoc ack (doc "sites" id) data.

(** [update(id, data)] of [useSites]. *)
Definition update (ack : Outcome unit) (id : string) (data : SitePatch)
  : M Store unit :=
  updateSiteDoc ack id data ;;
  setSites (fun prev =>
              (fun s => if decide (site_id s = id) then patch_site data s else s)
                <$> prev).

(** The state of [useSites]: the store, the two flags, and what went to
    the console. *)
Record SitesHook : Type := {
  store : Store;
  loading : bool;
  error : option string;
  console : list Exn;
}.

Definition setLoading (b : bool) : M SitesHook unit :=
  modify (fun h => {| store := store h; loading := b; error := error h;
                      console := console h |}).

Definition setError (e : option string) : M SitesHook unit :=
  modify (fun h => {| store := store h; loading := loading h; error := e;
                      console := console h |}).

(** [console.error(e)] *)
Definition console_error (e : Exn) : M SitesHook unit :=
  modify (fun h => {| store := store h; loading := loading h; error := error h;
                      console := console h ++ [e] |}).

(** A computation on the store, run inside the hook. *)
Definition on_store {A} (m : M Store A) : M SitesHook A :=
  fun h =>
    let (s', r) := m (store h) in
    ({| store := s'; loading := loading h; error := error h;
        console := console h |}, r).

(** [try { m } finally { f }] *)
Definition try_finally {St A} (m : M St A) (f : M St unit) : M St A :=
  fun s =>
    match m s with
    | (s', Blocked) => (s', Blocked)
    | (s', r) =>
        match f s' with
        | (s'', Returned _) => (s'', r)
        | (s'', Threw e) => (s'', Threw e)
        | (s'', Blocked) => (s'', Blocked)
        end
    end.

(** [load] of [useSites]. *)
Definition load (ack : Outcome unit) : M SitesHook unit :=
  try_finally
    (try_catch
       (setLoading true ;;
        setError None ;;
        data <- on_store (loadSites ack) ;;
        on_store (setSites (fun _ => data)))
       (fun e =>
          setError (Some "Failed to load sites from Firestore. Check your Firebase config.") ;;
          console_error e))
    (setLoading false).

(** The site list mirrors the sites collection: distinct ids, and a site
    is listed exactly when its document is stored. *)
Definition mirrors (s : Store) : Prop :=
  NoDup (map site_id (sites s))
  /\ forall site,
       site ∈ sites s
       <-> db s !! doc "sites" (site_id site)
           = Some (SiteDoc (site_name site) (site_state site)
                           (site_lat site) (site_lon site)).

(* ===================================================================== *)
(** * Precipitation classes and the site row *)
(* ===================================================================== *)

(** [a > b] on numbers. *)
Definition js_gt (a b : number) : bool := SFltb b a.

(** [Math.min(a, b)]: NaN if one argument is NaN, and -0 is below +0. *)
Definition Math_min (a b : number) : number :=
  if isNaN a || isNaN b then S754_nan
  else if SFltb a b then a
  else if SFltb b a then b
  else match a with S754_zero true => a | _ => b end.

Record Thresholds : Type := { light : number; moderate : number; heavy : number }.

Definition PRECIP_THRESHOLDS : Thresholds :=
  {| light := of_Z 0; moderate := lit 25 2; heavy := lit 5 1 |}.

Definition getPrecipClass (precip : number) : string :=
  if js_ge precip (heavy PRECIP_THRESHOLDS) then "heavy"
  else if js_ge precip (moderate PRECIP_THRESHOLDS) then "moderate"
  else if js_gt precip (light PRECIP_THRESHOLDS) then "has-rain"
  else "".

Definition getPrecipColor (cls : string) : string :=
  if String.eqb cls "heavy" then "#1d4ed8"
  else if String.eqb cls "moderate" then "#2563eb"
  else if String.eqb cls "has-rain" then "#60a5fa"
  else "#6b7280".

(** The [weather] prop of a row: [weatherData[site.id]], absent, null or
    a record; [weather?.precip24hr ?? null]. *)
Definition row_precip (weather : option (option Weather)) : option number :=
  match weather with
  | Some (Some w) => Some (precip24hr w)
  | _ => None
  end.

(** [precip != null ? getPrecipClass(precip) : ''] *)
Definition row_cls (precip : option number) : string :=
  match precip with
  | Some p => getPrecipClass p
  | None => ""
  end.

(** [precip > 0], false for [null]: whether the bar is rendered. *)
Definition row_bar (precip : option number) : bool :=
  match precip with
  | Some p => js_gt p (of_Z 0)
  | None => false
  end.

(** [precip > 0 ? Math.min((precip / 1.0) * 100, 100) : 0] *)
Definition barWidth (precip : option number) : number :=
  if row_bar precip then
    match precip with
    | Some p => Math_min (js_mul (js_div p (of_Z 1)) (of_Z 100)) (of_Z 100)
    | None => of_Z 0
    end
  else of_Z 0.

(** The rank of a class, from no rain to heavy rain. *)
Definition class_rank (cls : string) : nat :=
  if String.eqb cls "heavy" then 3
  else if String.eqb cls "moderate" then 2
  else if String.eqb cls "has-rain" then 1
  else 0.

(** A number that is not NaN and has the sign bit [s]. *)
Definition signed (s : bool) (x : number) : Prop :=
  match x with
  | S754_zero s' | S754_infinity s' | S754_finite s' _ _ => s' = s
  | S754_nan => False
  end.

(** A number that is neither NaN, nor an infinity, nor a zero. *)
Definition is_finite (x : number) : bool :=
  match x with S754_finite _ _ _ => true | _ => false end.

(** A number below zero. *)
Definition negative (x : number) : Prop :=
  match x with
  | S754_finite true _ _ | S754_infinity true => True
  | _ => False
  end.

(** The three blues of a class. *)
Definition blues : list string := ["#1d4ed8"; "#2563eb"; "#60a5fa"].

(* ===================================================================== *)
(** * Sync loop: what a cycle appends and reports *)
(* ===================================================================== *)

(** The documents appended to the observations collection, in trace order. *)
Definition appended (evs : list Event) : list Observation :=
  omap (fun ev => match ev with EvAddDoc _ d => Some d | _ => None end) evs.

(** The console messages of a trace, in order. *)
Definition reported (evs : list Event) : list (string * Exn) :=
  omap (fun ev => match ev with EvConsoleError msg e => Some (msg, e) | _ => None end) evs.

(** What site number [i] contributes to the observations: its observation
    when its fetch returned. *)
Definition site_observation (timeline : nat -> World) (i : nat) (site : Site)
  : option Observation :=
  match fetch_result (timeline i) site with
  | Returned weather => Some (observation (timeline i) site weather)
  | _ => None
  end.

(** What site number [i] contributes to the console: the failure of its
    fetch, or the rejection of its append. *)
Definition site_report (timeline : nat -> World) (i : nat) (site : Site)
  : option (string * Exn) :=
  match fetch_result (timeline i) site with
  | Returned weather =>
      match firestore_add (timeline i) "observations"
              (observation (timeline i) site weather) with
      | Rejected e => Some ("Failed to log observation for " +:+ site_id site +:+ ":", e)
      | _ => None
      end
  | Threw e => Some ("Failed to fetch weather for " +:+ site_name site +:+ ":", e)
  | Blocked => None
  end.

(** The sites of a list with their indices, from index [i] on. *)
Fixpoint indexed (i : nat) (l : list Site) : list (nat * Site) :=
  match l with
  | [] => []
  | site :: rest => (i, site) :: indexed (S i) rest
  end.

(* ===================================================================== *)
(** * Site store: notions used to state its properties *)
(* ===================================================================== *)

(** The sites collection holds site documents only, as the program
    assumes when it spreads [d.data()] into a site. *)
Definition site_collection (d : firestore) : Prop :=
  forall id x, d !! doc "sites" id = Some x ->
               exists name state la lo, x = SiteDoc name state la lo.

(** The document a listed site is stored as. *)
Definition doc_of_site (site : Site) : Doc :=
  SiteDoc (site_name site) (site_state site) (site_lat site) (site_lon site).

(** [{ ...d1, ...d2 }] on patches. *)
Definition patch_then (d1 d2 : SitePatch) : SitePatch :=
  {| set_name := from_option Some (set_name d1) (set_name d2);
     set_state := from_option Some (set_state d1) (set_state d2);
     set_lat := from_option Some (set_lat d1) (set_lat d2);
     set_lon := from_option Some (set_lon d1) (set_lon d2) |}.


(* ===================================================================== *)
(** * Comparisons of numbers: case analysis *)
(* ===================================================================== *)

(** Splits every comparison of exponents and mantissas in the goal and
    the hypotheses into its three outcomes. *)
Ltac compare_cases :=
  repeat match goal with
         | H : context [Z.compare ?a ?b] |- _ => destruct (Z.compare_spec a b)
         | |- context [Z.compare ?a ?b] => destruct (Z.compare_spec a b)
         | H : context [Pos.compare_cont Eq ?a ?b] |- _ =>
             change (Pos.compare_cont Eq a b) with (Pos.compare a b) in H;
             destruct (Pos.compare_spec a b)
         | |- context [Pos.compare_cont Eq ?a ?b] =>
             change (Pos.compare_cont Eq a b) with (Pos.compare a b);
             destruct (Pos.compare_spec a b)
         end.

(* ===================================================================== *)
(** * Further sample data *)
(* ===================================================================== *)

(** A site as the form hands it over, and an edit that renames a site. *)
Definition input_duluth : SiteInput :=
  {| in_name := "Duluth"; in_state := "MN"; in_lat := of_Z 47; in_lon := of_Z (-92) |}.

Definition patch_rename : SitePatch :=
  {| set_name := Some "Fargo East"; set_state := None;
     set_lat := None; set_lon := None |}.

(* ===================================================================== *)
(** * Sync loop: when a site is done, and the request the spec describes *)
(* ===================================================================== *)

(** The loop is done with a site once its fetch has settled and, when the
    fetch returned weather, the append of its observation has settled
    too (resolved or rejected). *)
Definition site_done (w : World) (site : Site) : Prop :=
  match fetch_result w site with
  | Returned weather =>
      firestore_add w "observations" (observation w site weather) <> Pending
  | Threw _ => True
  | Blocked => False
  end.

(** The request the spec describes for a site: its own latitude and
    longitude, the six hourly series, the fixed timezone, the past 24
    hours and no forecast hours. *)
Definition forecast_request (site : Site) : Request :=
  {| latitude := site_lat site; longitude := site_lon site;
     hourly_params :=
       "precipitation,temperature_2m,relative_humidity_2m,dew_point_2m,wind_speed_10m,wind_direction_10m";
     timezone := "America/Chicago"; past_hours := 24; forecast_hours := 0 |}.

(** What an update does to one field: a field that is set gets the new
    value, a field that is not set keeps the old one. *)
Definition field_set {A} (set : option A) (old new : A) : Prop :=
  match set with
  | Some v => new = v
  | None => new = old
  end.



(** The service never answers. *)
Definition world_silent : World :=
  {| http := fun _ => Pending;
     firestore_add := fun _ _ => Resolved "obs";
     now := 1770000000200 |}.

(** Site "a" is fetched while the service is up; for site "b" it never
    answers. *)
Definition timeline_b_silent (i : nat) : World :=
  match i with 1%nat => world_silent | _ => world_up end.

(* ===================================================================== *)
(** * Numbers: examples *)
(* ===================================================================== *)

Example lit_mm_to_inches :
  lit 393701 7 = S754_finite false 5673829366065253 (-57).
Proof. vm_compute. reflexivity. Qed.

Example Math_round_samples :
  Math_round (lit 25 1) = of_Z 3 /\ Math_round (lit (-25) 1) = of_Z (-2) /\
  Math_round (lit 3 1) = S754_zero false /\ Math_round (lit (-5) 1) = S754_zero true /\
  Math_round (lit 5905515 6) = of_Z 6 /\ Math_round (of_Z 7) = of_Z 7.
Proof. vm_compute. repeat split; reflexivity. Qed.

Example js_rem_samples :
  js_rem (of_Z 16) (of_Z 16) = S754_zero false /\
  js_rem (of_Z 37) (of_Z 16) = of_Z 5 /\
  js_rem (of_Z (-37)) (of_Z 16) = of_Z (-5) /\
  js_rem (lit 55 1) (of_Z 2) = lit 15 1 /\
  array_index (of_Z 5) = Some 5%nat /\ array_index (lit 15 1) = None.
Proof. vm_compute. repeat split; reflexivity. Qed.

(* ===================================================================== *)
(** * Numbers: bounds on the rounding of binary64 results *)
(* ===================================================================== *)

Lemma digits2_pos_bounds p :
  2 ^ (Zpos (digits2_pos p) - 1) <= Zpos p < 2 ^ Zpos (digits2_pos p).
Proof.
  induction p as [p IH|p IH|]; cbn [digits2_pos].
  - rewrite Pos2Z.inj_succ. replace (Z.succ (Zpos (digits2_pos p)) - 1)
      with (Z.succ (Zpos (digits2_pos p) - 1)) by lia.
    rewrite !Z.pow_succ_r by lia. lia.
  - rewrite Pos2Z.inj_succ. replace (Z.succ (Zpos (digits2_pos p)) - 1)
      with (Z.succ (Zpos (digits2_pos p) - 1)) by lia.
    rewrite !Z.pow_succ_r by lia. lia.
  - simpl. lia.
Qed.

Lemma Zdigits2_le q k : 0 <= q < 2 ^ k -> 0 <= k -> Zdigits2 q <= k.
Proof.
  intros [Hq0 Hq] Hk. destruct q as [|p|p]; simpl; [lia| |lia].
  pose proof (digits2_pos_bounds p) as [Hlo _].
  destruct (Z_le_gt_dec (Zpos (digits2_pos p)) k) as [|Hgt]; [assumption|exfalso].
  assert (2 ^ k <= 2 ^ (Zpos (digits2_pos p) - 1)) by (apply Z.pow_le_mono_r; lia).
  lia.
Qed.

Lemma shr_1_bound mrs :
  0 <= shr_m mrs -> 0 <= shr_m (shr_1 mrs) /\ shr_m (shr_1 mrs) * 2 <= shr_m mrs.
Proof.
  destruct mrs as [m r s]. simpl. intros Hm.
  destruct m as [|[p|p|]|p]; simpl; lia.
Qed.

Lemma scale_trans a b c x y :
  0 < y -> a * x <= b -> b * y <= c -> a * (x * y) <= c.
Proof.
  intros Hy Hab Hbc. apply Z.le_trans with (b * y); [|assumption].
  rewrite Z.mul_assoc. apply Z.mul_le_mono_nonneg_r; lia.
Qed.

Lemma iter_shr_1_bound p :
  forall mrs, 0 <= shr_m mrs ->
    0 <= shr_m (SpecFloat.iter_pos shr_1 p mrs)
    /\ shr_m (SpecFloat.iter_pos shr_1 p mrs) * 2 ^ Zpos p <= shr_m mrs.
Proof.
  induction p as [p IH|p IH|]; intros mrs Hm; cbn [SpecFloat.iter_pos].
  - destruct (shr_1_bound mrs Hm) as [H0 H1].
    destruct (IH _ H0) as [H2 H3]. destruct (IH _ H2) as [H4 H5].
    split; [assumption|].
    replace (Zpos p~1) with (Zpos p + Zpos p + 1) by lia.
    rewrite !Z.pow_add_r by lia. change (2 ^ 1) with 2.
    assert (0 < 2 ^ Zpos p) by (apply Z.pow_pos_nonneg; lia).
    apply (scale_trans _ (shr_m (shr_1 mrs)) _ _ 2); [lia| |lia].
    eapply scale_trans; eassumption.
  - destruct (IH _ Hm) as [H2 H3]. destruct (IH _ H2) as [H4 H5].
    split; [assumption|].
    replace (Zpos p~0) with (Zpos p + Zpos p) by lia.
    rewrite !Z.pow_add_r by lia.
    assert (0 < 2 ^ Zpos p) by (apply Z.pow_pos_nonneg; lia).
    eapply scale_trans; eassumption.
  - change (2 ^ 1) with 2. apply shr_1_bound. assumption.
Qed.

Lemma shr_bound mrs e n mrs' e' :
  shr mrs e n = (mrs', e') -> 0 <= shr_m mrs ->
  e' = e + Z.max 0 n /\ 0 <= shr_m mrs' /\ shr_m mrs' * 2 ^ Z.max 0 n <= shr_m mrs.
Proof.
  unfold shr. intros Hshr Hm. destruct n as [|p|p]; injection Hshr as <- <-.
  - change (Z.max 0 0) with 0. rewrite Z.pow_0_r. lia.
  - rewrite Z.max_r by lia. destruct (iter_shr_1_bound p mrs Hm).
    split; [reflexivity|]. split; assumption.
  - rewrite Z.max_l by lia. rewrite Z.pow_0_r. lia.
Qed.

Lemma shr_record_of_loc_m m l : shr_m (shr_record_of_loc m l) = m.
Proof. destruct l as [|[| |]]; reflexivity. Qed.

Lemma round_nearest_even_bound m l :
  m <= round_nearest_even m l <= m + 1.
Proof. destruct l as [|[| |]]; simpl; try lia. destruct (Z.even m); lia. Qed.

Lemma fexp_le x : x <= 5 -> fexp prec emax x <= -48.
Proof. unfold fexp, emin, prec, emax. lia. Qed.

Lemma mul_le_cancel a b t : 0 < t -> a * t <= b * t -> a <= b.
Proof. intros Ht H. nia. Qed.

(** Rounding a non-negative quotient of at most 16: the result is +0 or a
    positive double below 16.5 with a negative exponent. *)
Lemma binary_round_aux_bound q e l :
  0 <= q -> e <= -49 -> q <= 16 * 2 ^ (- e) ->
  binary_round_aux prec emax false q e l = S754_zero false
  \/ exists mf ef,
       binary_round_aux prec emax false q e l = S754_finite false mf ef
       /\ ef < 0 /\ 2 * Zpos mf < 33 * 2 ^ (- ef).
Proof.
  intros Hq He Hbound. unfold binary_round_aux, shr_fexp.
  destruct (shr (shr_record_of_loc q l) e (fexp prec emax (Zdigits2 q + e) - e))
    as [mrs1 e1] eqn:H1.
  apply shr_bound in H1 as (He1 & Hm1 & Hs1); [|rewrite shr_record_of_loc_m; exact Hq].
  rewrite shr_record_of_loc_m in Hs1.
  assert (Hpe : 0 < 2 ^ (- e)) by (apply Z.pow_pos_nonneg; lia).
  assert (Hd1 : Zdigits2 q <= 5 - e).
  { apply Zdigits2_le; [|lia]. split; [assumption|].
    replace (5 - e) with (5 + - e) by lia. rewrite Z.pow_add_r by lia.
    change (2 ^ 5) with 32. lia. }
  pose proof (fexp_le (Zdigits2 q + e) ltac:(lia)) as Hf1.
  set (n1 := Z.max 0 (fexp prec emax (Zdigits2 q + e) - e)) in *.
  assert (Hn1 : 0 <= n1) by (unfold n1; lia).
  assert (He1' : e1 <= -48) by (unfold n1 in *; lia).
  assert (HA : 0 < 2 ^ (- e1)) by (apply Z.pow_pos_nonneg; lia).
  assert (HT1 : 0 < 2 ^ n1) by (apply Z.pow_pos_nonneg; lia).
  assert (Hsplit1 : 2 ^ (- e) = 2 ^ (- e1) * 2 ^ n1).
  { rewrite <- Z.pow_add_r by lia. f_equal. lia. }
  assert (Hm1' : shr_m mrs1 <= 16 * 2 ^ (- e1)).
  { apply (mul_le_cancel _ _ (2 ^ n1) HT1). rewrite Hsplit1 in Hbound. lia. }
  pose proof (round_nearest_even_bound (shr_m mrs1) (loc_of_shr_record mrs1)) as Hr.
  set (mr := round_nearest_even (shr_m mrs1) (loc_of_shr_record mrs1)) in *.
  destruct (shr (shr_record_of_loc mr loc_Exact) e1
              (fexp prec emax (Zdigits2 mr + e1) - e1)) as [mrs2 e2] eqn:H2.
  apply shr_bound in H2 as (He2 & Hm2 & Hs2); [|simpl; lia].
  simpl shr_m in Hs2.
  assert (HA48 : 2 ^ 48 <= 2 ^ (- e1)) by (apply Z.pow_le_mono_r; lia).
  assert (Hd2 : Zdigits2 mr <= 5 - e1).
  { apply Zdigits2_le; [|lia]. split; [lia|].
    replace (5 - e1) with (5 + - e1) by lia. rewrite Z.pow_add_r by lia.
    change (2 ^ 5) with 32.
    replace (2 ^ 48) with 281474976710656 in HA48 by (vm_compute; reflexivity). lia. }
  pose proof (fexp_le (Zdigits2 mr + e1) ltac:(lia)) as Hf2.
  set (n2 := Z.max 0 (fexp prec emax (Zdigits2 mr + e1) - e1)) in *.
  assert (Hn2 : 0 <= n2) by (unfold n2; lia).
  assert (He2' : e2 <= -48) by (unfold n2 in *; lia).
  destruct (shr_m mrs2) as [|mf|mf] eqn:Hmf.
  - left. reflexivity.
  - right. exists mf, e2.
    assert (Hle : (e2 <=? emax - prec) = true) by (apply Z.leb_le; unfold emax, prec; lia).
    rewrite Hle. split; [reflexivity|]. split; [lia|].
    assert (HC : 0 < 2 ^ (- e2)) by (apply Z.pow_pos_nonneg; lia).
    assert (HT2 : 0 < 2 ^ n2) by (apply Z.pow_pos_nonneg; lia).
    assert (Hsplit2 : 2 ^ (- e1) = 2 ^ (- e2) * 2 ^ n2).
    { rewrite <- Z.pow_add_r by lia. f_equal. lia. }
    replace (2 ^ 48) with 281474976710656 in HA48 by (vm_compute; reflexivity).
    destruct (Z_lt_le_dec (2 * Zpos mf) (33 * 2 ^ (- e2))) as [|Hge]; [assumption|exfalso].
    assert (33 * 2 ^ (- e2) * 2 ^ n2 <= 2 * Zpos mf * 2 ^ n2)
      by (apply Z.mul_le_mono_nonneg_r; lia).
    nia.
  - lia.
Qed.

Lemma shr_1_lower mrs :
  0 <= shr_m mrs -> shr_m mrs < (shr_m (shr_1 mrs) + 1) * 2.
Proof.
  destruct mrs as [m r s]. simpl. intros Hm.
  destruct m as [|[p|p|]|p]; simpl; lia.
Qed.

Lemma iter_shr_1_lower p :
  forall mrs, 0 <= shr_m mrs ->
    shr_m mrs < (shr_m (SpecFloat.iter_pos shr_1 p mrs) + 1) * 2 ^ Zpos p.
Proof.
  induction p as [p IH|p IH|]; intros mrs Hm; cbn [SpecFloat.iter_pos].
  - pose proof (shr_1_bound mrs Hm) as [H0 _].
    pose proof (shr_1_lower mrs Hm) as L0.
    pose proof (iter_shr_1_bound p _ H0) as [H1 _].
    pose proof (IH _ H0) as L1. pose proof (IH _ H1) as L2.
    replace (Zpos p~1) with (Zpos p + Zpos p + 1) by lia.
    rewrite !Z.pow_add_r by lia. change (2 ^ 1) with 2.
    assert (0 < 2 ^ Zpos p) by (apply Z.pow_pos_nonneg; lia). nia.
  - pose proof (iter_shr_1_bound p _ Hm) as [H1 _].
    pose proof (IH _ Hm) as L1. pose proof (IH _ H1) as L2.
    replace (Zpos p~0) with (Zpos p + Zpos p) by lia.
    rewrite !Z.pow_add_r by lia.
    assert (0 < 2 ^ Zpos p) by (apply Z.pow_pos_nonneg; lia). nia.
  - change (2 ^ 1) with 2. apply shr_1_lower. assumption.
Qed.

Lemma shr_lower mrs e n mrs' e' :
  shr mrs e n = (mrs', e') -> 0 <= shr_m mrs ->
  shr_m mrs < (shr_m mrs' + 1) * 2 ^ Z.max 0 n.
Proof.
  unfold shr. intros Hshr Hm. destruct n as [|p|p]; injection Hshr as <- <-.
  - change (Z.max 0 0) with 0. rewrite Z.pow_0_r. lia.
  - rewrite Z.max_r by lia. apply iter_shr_1_lower. assumption.
  - rewrite Z.max_l by lia. rewrite Z.pow_0_r. lia.
Qed.

Lemma Zdigits2_lower m : 0 < m -> 2 ^ (Zdigits2 m - 1) <= m /\ 0 < Zdigits2 m.
Proof.
  intros Hm. destruct m as [|p|p]; try lia. simpl.
  pose proof (digits2_pos_bounds p). lia.
Qed.

(** Shifting a positive mantissa to its format exponent leaves it positive
    when the exponent is not below [emin]. *)
Lemma shr_fexp_positive m e l mrs e' :
  shr_fexp prec emax m e l = (mrs, e') ->
  0 < m -> emin prec emax <= e ->
  0 < shr_m mrs /\ e <= e'.
Proof.
  unfold shr_fexp. intros Hshr Hm He.
  pose proof (shr_lower _ _ _ _ _ Hshr ltac:(rewrite shr_record_of_loc_m; lia)) as Hlow.
  pose proof (shr_bound _ _ _ _ _ Hshr ltac:(rewrite shr_record_of_loc_m; lia))
    as (He' & Hnn & _).
  rewrite shr_record_of_loc_m in Hlow.
  destruct (Zdigits2_lower m Hm) as [Hdig Hdpos].
  set (n := Z.max 0 (fexp prec emax (Zdigits2 m + e) - e)) in *.
  assert (Hn : 0 <= n <= Zdigits2 m - 1).
  { unfold n, fexp, emin, prec, emax in *. lia. }
  split; [|lia].
  assert (2 ^ n <= 2 ^ (Zdigits2 m - 1)) by (apply Z.pow_le_mono_r; lia).
  assert (0 < 2 ^ n) by (apply Z.pow_pos_nonneg; lia).
  nia.
Qed.

Lemma binary_round_aux_positive s m e l :
  0 < m -> emin prec emax <= e ->
  match binary_round_aux prec emax s m e l with
  | S754_zero _ | S754_nan => False
  | S754_infinity _ => True
  | S754_finite _ _ e' => emin prec emax <= e'
  end.
Proof.
  intros Hm He. unfold binary_round_aux.
  destruct (shr_fexp prec emax m e l) as [mrs1 e1] eqn:H1.
  destruct (shr_fexp_positive _ _ _ _ _ H1 Hm He) as [Hm1 He1].
  pose proof (round_nearest_even_bound (shr_m mrs1) (loc_of_shr_record mrs1)) as Hr.
  destruct (shr_fexp prec emax _ e1 loc_Exact) as [mrs2 e2] eqn:H2.
  destruct (shr_fexp_positive _ _ _ _ _ H2 ltac:(lia) ltac:(lia)) as [Hm2 He2].
  destruct (shr_m mrs2) as [|mf|mf]; try lia.
  destruct (e2 <=? emax - prec); [lia | exact I].
Qed.

Lemma valid_exponent s m e : valid (S754_finite s m e) -> emin prec emax <= e.
Proof.
  unfold valid, valid_binary, bounded, canonical_mantissa.
  intros H. apply andb_true_iff in H as [H _]. apply Z.eqb_eq in H.
  unfold fexp in H. lia.
Qed.

Lemma binary_round_positive s m e :
  emin prec emax <= e ->
  match binary_round prec emax s m e with
  | S754_zero _ | S754_nan => False
  | S754_infinity _ => True
  | S754_finite _ _ e' => emin prec emax <= e'
  end.
Proof.
  intros He. unfold binary_round, shl_align.
  destruct (fexp prec emax (Zpos (digits2_pos m) + e) - e) eqn:Hd;
    apply binary_round_aux_positive; try lia.
  unfold fexp. lia.
Qed.

Lemma js_add_sum_ok acc y :
  sum_ok acc -> valid y -> sum_ok (js_add acc y).
Proof.
  intros Hacc Hy. unfold js_add, SFadd.
  destruct acc as [sa|sa| |sa ma ea], y as [sy|sy| |sy my ey]; simpl in Hacc |- *;
    try exact I; try (subst sa; destruct sy; reflexivity); try assumption;
    try (destruct sa, sy; exact I); try (eapply valid_exponent; eassumption).
  pose proof (valid_exponent _ _ _ Hy) as Hey.
  unfold binary_normalize.
  destruct (_ + _) as [|p|p]; [reflexivity| |].
  - pose proof (binary_round_positive false p (Z.min ea ey) ltac:(lia)) as H.
    destruct (binary_round _ _ _ _ _); try contradiction; assumption.
  - pose proof (binary_round_positive true p (Z.min ea ey) ltac:(lia)) as H.
    destruct (binary_round _ _ _ _ _); try contradiction; assumption.
Qed.

(* ===================================================================== *)
(** * Weather client: properties *)
(* ===================================================================== *)

Lemma fetchWeatherData_unfold w la lo s :
  fetchWeatherData w la lo s =
  (emitted s [EvFetch (weather_request la lo)],
   match http w (weather_request la lo) with
   | Resolved res =>
       if ok res then
         match json res with
         | Resolved data => Returned (weather_of data)
         | Rejected e => Threw e
         | Pending => Blocked
         end
       else Threw (Error ("Weather API error: " +:+ pretty (status res)))
   | Rejected e => Threw e
   | Pending => Blocked
   end).
Proof.
  unfold fetchWeatherData, bind, emit, modify, await, throw, ret, emitted; simpl.
  destruct (http w (weather_request la lo)) as [res|e|]; try reflexivity.
  destruct (ok res); simpl; try reflexivity.
  destruct (json res); reflexivity.
Qed.

Lemma fetchWeatherData_result w site s :
  (fetchWeatherData w (site_lat site) (site_lon site) s).2 = fetch_result w site.
Proof. unfold fetch_result. rewrite !fetchWeatherData_unfold. reflexivity. Qed.

Lemma fetchWeatherData_run w site s :
  fetchWeatherData w (site_lat site) (site_lon site) s
  = (emitted s [EvFetch (weather_request (site_lat site) (site_lon site))],
     fetch_result w site).
Proof.
  rewrite <- (fetchWeatherData_result w site s), fetchWeatherData_unfold.
  reflexivity.
Qed.

Lemma ok_range res : ok res = true <-> 200 <= status res <= 299.
Proof. unfold ok. rewrite andb_true_iff, !Z.leb_le. tauto. Qed.

(** C6: a response whose status is not in 200-299 makes the weather client
    throw the error "Weather API error: " followed by the status in decimal,
    from which the status can be read back; the call returns no weather
    record and changes nothing but the trace. *)
Theorem fetchWeatherData_http_error w la lo s res :
  http w (weather_request la lo) = Resolved res ->
  ~ (200 <= status res <= 299) ->
  (fetchWeatherData w la lo s).2
  = Threw (Error ("Weather API error: " +:+ pretty (status res)))
  /\ (forall code,
        Error ("Weather API error: " +:+ pretty code)
        = Error ("Weather API error: " +:+ pretty (status res)) ->
        code = status res)
  /\ (forall weather, (fetchWeatherData w la lo s).2 <> Returned weather)
  /\ (fetchWeatherData w la lo s).1 = emitted s [EvFetch (weather_request la lo)].
Proof.
  intros Hres Hstatus. rewrite fetchWeatherData_unfold, Hres. simpl.
  destruct (ok res) eqn:Hok.
  - apply ok_range in Hok. contradiction.
  - split; [reflexivity|]. split; [|split; [discriminate | reflexivity]].
    intros code Heq. injection Heq as Heq.
    exact (inj pretty _ _ Heq).
Qed.

Lemma add_or_zero acc v :
  sum_ok acc -> json_number v ->
  js_add acc (or_zero v) = js_add acc (counted v)
  /\ sum_ok (js_add acc (counted v)).
Proof.
  intros Hacc Hv. destruct v as [x|]; simpl in Hv.
  - destruct Hv as [Hvalid Hnan]. split; [|apply js_add_sum_ok; assumption].
    unfold or_zero, counted; simpl.
    destruct x as [s|s| |s m e]; simpl; try reflexivity; [|congruence].
    destruct acc as [sa|sa| |sa ma ea]; simpl in Hacc; subst;
      destruct s; reflexivity.
  - split; [reflexivity|]. apply js_add_sum_ok; [assumption | reflexivity].
Qed.

Lemma reduce_sum vs acc :
  sum_ok acc ->
  Forall json_number vs ->
  fold_left (fun sum v => js_add sum (or_zero v)) vs acc
  = fold_left js_add (map counted vs) acc.
Proof.
  intros Hacc Hvs. revert acc Hacc.
  induction Hvs as [|v vs Hv _ IH]; intros acc Hacc; simpl; [reflexivity|].
  destruct (add_or_zero acc v Hacc Hv) as [-> Hnext]. apply IH. exact Hnext.
Qed.

Lemma weather_of_precip data :
  Forall json_number (precipitation_values data) ->
  precip24hr (weather_of data)
  = round_dp 2 (js_mul (sum_series (precipitation_values data)) MM_TO_INCHES).
Proof.
  intros Hvs. unfold weather_of, round_dp, sum_series, precipMm; simpl.
  fold (precipitation_values data).
  rewrite (reduce_sum _ (S754_zero false) eq_refl Hvs). reflexivity.
Qed.

(** C3: after a successful fetch the reported 24-hour precipitation is the
    sum of the returned hourly values (taken in order, a null entry counted
    as 0), times 0.0393701, rounded to two decimals; the series 0, 0.5,
    1.0 mm is reported as 0.06 in. *)
Theorem precip24hr_rounded_inches w la lo s res data :
  http w (weather_request la lo) = Resolved res ->
  ok res = true ->
  json res = Resolved data ->
  Forall json_number (precipitation_values data) ->
  exists weather,
    (fetchWeatherData w la lo s).2 = Returned weather
    /\ precip24hr weather
       = round_dp 2 (js_mul (sum_series (precipitation_values data)) (lit 393701 7))
    /\ (precipitation_values data = [Some (of_Z 0); Some (lit 5 1); Some (of_Z 1)] ->
        precip24hr weather = lit 6 2).
Proof.
  intros Hres Hok Hjson Hvs. exists (weather_of data).
  rewrite fetchWeatherData_unfold, Hres, Hok, Hjson. cbn [snd].
  split; [reflexivity|].
  rewrite (weather_of_precip data Hvs). split; [reflexivity|].
  intros ->. vm_compute. reflexivity.
Qed.

Lemma lastVal_last_value arr : lastVal arr = last_value arr.
Proof.
  destruct arr as [a|]; [|reflexivity].
  unfold lastVal, last_value; simpl.
  destruct a as [|x a]; [reflexivity|].
  rewrite last_lookup. simpl. rewrite Nat.sub_0_r. reflexivity.
Qed.

Lemma last_value_snoc l v : last_value (Some (l ++ [v])) = v.
Proof. unfold last_value; simpl. rewrite last_snoc. reflexivity. Qed.

Lemma celsiusToFahrenheit_spec c : celsiusToFahrenheit c = to_fahrenheit <$> c.
Proof. destruct c; reflexivity. Qed.

Lemma kphToMph_spec k : kphToMph k = to_mph <$> k.
Proof. destruct k; reflexivity. Qed.

(** C5: after a successful fetch every instantaneous field is the last
    value of its hourly series, null when the series is empty (or missing);
    temperature and dew point go through [round(c*9/5+32, 1)] and wind
    speed through [round(k*0.621371, 1)], so 20 degrees Celsius read 68 and
    10 km/h read 6.2. *)
Theorem instantaneous_fields_are_last_values w la lo s res data :
  http w (weather_request la lo) = Resolved res ->
  ok res = true ->
  json res = Resolved data ->
  let h := default no_hourly (hourly data) in
  exists weather,
    (fetchWeatherData w la lo s).2 = Returned weather
    /\ tempF weather = to_fahrenheit <$> last_value (temperature_2m h)
    /\ humidity weather = last_value (relative_humidity_2m h)
    /\ dewPointF weather = to_fahrenheit <$> last_value (dew_point_2m h)
    /\ windSpeedMph weather = to_mph <$> last_value (wind_speed_10m h)
    /\ windDir weather = last_value (wind_direction_10m h)
    /\ (forall arr l v, arr = Some (l ++ [v]) -> last_value arr = v)
    /\ (forall arr, arr = Some [] \/ arr = None -> last_value arr = None)
    /\ (forall l, temperature_2m h = Some (l ++ [Some (of_Z 20)]) ->
        tempF weather = Some (of_Z 68))
    /\ (forall l, wind_speed_10m h = Some (l ++ [Some (of_Z 10)]) ->
        windSpeedMph weather = Some (lit 62 1)).
Proof.
  intros Hres Hok Hjson h. exists (weather_of data).
  rewrite fetchWeatherData_unfold, Hres, Hok, Hjson. cbn [snd].
  unfold weather_of. fold h. cbn [tempF humidity dewPointF windSpeedMph windDir].
  rewrite !celsiusToFahrenheit_spec, kphToMph_spec, !lastVal_last_value.
  repeat split.
  - intros arr l v ->. apply last_value_snoc.
  - intros arr [-> | ->]; reflexivity.
  - intros l ->. rewrite last_value_snoc. vm_compute. reflexivity.
  - intros l ->. rewrite last_value_snoc. vm_compute. reflexivity.
Qed.

(* ===================================================================== *)
(** * Sync loop: properties *)
(* ===================================================================== *)

Lemma emitted_emitted s evs1 evs2 :
  emitted (emitted s evs1) evs2 = emitted s (evs1 ++ evs2).
Proof. unfold emitted; simpl. rewrite <- app_assoc. reflexivity. Qed.

Lemma emitted_nil s : emitted s [] = s.
Proof. destruct s; unfold emitted; simpl. rewrite app_nil_r. reflexivity. Qed.

Lemma emit_run ev s : emit ev s = (emitted s [ev], Returned tt).
Proof. reflexivity. Qed.

Lemma logObservation_unfold w siteId weather s :
  let d := {| obs_siteId := siteId; obs_weather := weather; obs_timestamp := now w |} in
  logObservation w siteId weather s =
  match firestore_add w "observations" d with
  | Resolved _ => (emitted s [EvAddDoc "observations" d], Returned tt)
  | Rejected e =>
      (emitted s [EvAddDoc "observations" d;
                  EvConsoleError ("Failed to log observation for " +:+ siteId +:+ ":") e],
       Returned tt)
  | Pending => (emitted s [EvAddDoc "observations" d], Blocked)
  end.
Proof.
  intros d. unfold logObservation, try_catch, bind, await, ret. fold d.
  rewrite emit_run.
  destruct (firestore_add w "observations" d); try reflexivity.
  rewrite emit_run, emitted_emitted. reflexivity.
Qed.

Lemma fetch_loop_cons timeline n i site rest results s :
  fetch_loop timeline n i (site :: rest) results s =
  let s1 := emitted s [EvFetch (site_request site)] in
  let d weather := observation (timeline i) site weather in
  match fetch_result (timeline i) site with
  | Returned weather =>
      let results' := <[site_id site := Some weather]> results in
      match firestore_add (timeline i) "observations" (d weather) with
      | Resolved _ =>
          continue timeline n i rest results'
            (emitted s1 [EvAddDoc "observations" (d weather)])
      | Rejected e =>
          continue timeline n i rest results'
            (emitted s1 [EvAddDoc "observations" (d weather);
                         EvConsoleError ("Failed to log observation for "
                                         +:+ site_id site +:+ ":") e])
      | Pending => (emitted s1 [EvAddDoc "observations" (d weather)], Blocked)
      end
  | Threw e =>
      continue timeline n i rest (<[site_id site := None]> results)
        (emitted s1 [EvConsoleError ("Failed to fetch weather for "
                                     +:+ site_name site +:+ ":") e])
  | Blocked => (s1, Blocked)
  end.
Proof.
  cbn zeta. cbn [fetch_loop]. unfold bind at 1. unfold try_catch. unfold bind at 1.
  rewrite fetchWeatherData_run.
  destruct (fetch_result (timeline i) site) as [weather|e|]; try reflexivity.
  unfold bind at 1. rewrite logObservation_unfold. unfold observation.
  destruct (firestore_add _ _ _); reflexivity.
Qed.

Lemma loop_net_schedule n i rest :
  n = Z.of_nat (i + length rest) -> loop_net n i rest = schedule rest.
Proof.
  revert i. induction rest as [|site rest IH]; intros i Hn; [reflexivity|].
  cbn [loop_net]. simpl in Hn.
  rewrite (IH (S i)) by (rewrite Hn; f_equal; lia).
  destruct rest as [|site' rest].
  - simpl in Hn. destruct (Z.ltb_spec (Z.of_nat i) (n - 1)); [lia|]. reflexivity.
  - simpl in Hn. destruct (Z.ltb_spec (Z.of_nat i) (n - 1)); [|lia]. reflexivity.
Qed.

Lemma settles_fetch_result w site : settles w -> fetch_result w site <> Blocked.
Proof.
  intros (Hhttp & Hjson & _). unfold fetch_result.
  rewrite fetchWeatherData_unfold. cbn [snd].
  specialize (Hhttp (weather_request (site_lat site) (site_lon site))).
  destruct (http w _) as [res|e|] eqn:Hres; try congruence.
  destruct (ok res); [|discriminate].
  specialize (Hjson _ _ Hres). destruct (json res); congruence.
Qed.

Lemma continue_run timeline n i rest results s :
  continue timeline n i rest results s =
  fetch_loop timeline n (S i) rest results
    (emitted s (if Z.of_nat i <? n - 1 then [EvDelay FETCH_DELAY] else [])).
Proof.
  unfold continue, bind, delay. destruct (Z.of_nat i <? n - 1).
  - rewrite emit_run. reflexivity.
  - unfold ret. rewrite emitted_nil. reflexivity.
Qed.

(** When every promise settles the loop runs to its end: it returns the
    buffer [cycle_results] and issues exactly the fetches and delays of
    [loop_net]. *)
Lemma fetch_loop_settled timeline n :
  (forall j, settles (timeline j)) ->
  forall rest i results s,
  exists evs,
    fetch_loop timeline n i rest results s
    = (emitted s evs, Returned (cycle_results timeline i rest results))
    /\ omap net evs = loop_net n i rest.
Proof.
  intros Hsettle. induction rest as [|site rest IH]; intros i results s.
  - exists []. rewrite emitted_nil. split; reflexivity.
  - rewrite fetch_loop_cons. cbn zeta. cbn [cycle_results loop_net]. unfold entry.
    pose proof (settles_fetch_result _ site (Hsettle i)) as Hnb.
    destruct (Hsettle i) as (_ & _ & Hadd).
    destruct (fetch_result (timeline i) site) as [weather|e|]; [| |congruence].
    + specialize (Hadd "observations" (observation (timeline i) site weather)).
      destruct (firestore_add _ _ _) as [x|e|]; [| |congruence];
        rewrite continue_run, !emitted_emitted;
        match goal with |- context [fetch_loop _ _ _ _ ?r ?s'] =>
          destruct (IH (S i) r s') as (evs & -> & Hnet) end;
        rewrite emitted_emitted; eexists; (split; [reflexivity|]);
        rewrite !omap_app, Hnet; destruct (Z.of_nat i <? n - 1); reflexivity.
    + rewrite continue_run, !emitted_emitted.
      match goal with |- context [fetch_loop _ _ _ _ ?r ?s'] =>
        destruct (IH (S i) r s') as (evs & -> & Hnet) end.
      rewrite emitted_emitted; eexists; (split; [reflexivity|]).
      rewrite !omap_app, Hnet; destruct (Z.of_nat i <? n - 1); reflexivity.
Qed.

(** Whatever the world does, the loop never throws, and the fetches and
    delays issued so far are an initial segment of [loop_net]: no fetch is
    issued before the previous site is done. *)
Lemma fetch_loop_prefix timeline n rest :
  forall i results s,
  exists evs,
    (fetch_loop timeline n i rest results s).1 = emitted s evs
    /\ omap net evs `prefix_of` loop_net n i rest
    /\ (forall e, (fetch_loop timeline n i rest results s).2 <> Threw e).
Proof.
  induction rest as [|site rest IH]; intros i results s.
  - exists []. rewrite emitted_nil.
    split; [reflexivity|]. split; [apply prefix_nil | discriminate].
  - rewrite fetch_loop_cons. cbn zeta. cbn [loop_net].
    assert (Hfirst : forall l, [EvFetch (site_request site)] `prefix_of`
                     EvFetch (site_request site) :: l) by (intros l; exists l; reflexivity).
    destruct (fetch_result (timeline i) site) as [weather|e|].
    + destruct (firestore_add _ _ _) as [x|e|].
      1,2: rewrite continue_run, !emitted_emitted;
        match goal with |- context [fetch_loop _ _ _ _ ?r ?s'] =>
          destruct (IH (S i) r s') as (evs & -> & Hnet & Hthrow) end;
        rewrite emitted_emitted; eexists; (split; [reflexivity|]);
        (split; [|exact Hthrow]);
        rewrite !omap_app; destruct (Z.of_nat i <? n - 1); simpl;
        repeat apply prefix_cons; exact Hnet.
      rewrite emitted_emitted. eexists; split; [reflexivity|].
      split; [apply Hfirst | discriminate].
    + rewrite continue_run, !emitted_emitted.
      match goal with |- context [fetch_loop _ _ _ _ ?r ?s'] =>
        destruct (IH (S i) r s') as (evs & -> & Hnet & Hthrow) end.
      rewrite emitted_emitted; eexists; (split; [reflexivity|]).
      split; [|exact Hthrow].
      rewrite !omap_app; destruct (Z.of_nat i <? n - 1); simpl;
        repeat apply prefix_cons; exact Hnet.
    + eexists; split; [reflexivity|]. split; [apply Hfirst | discriminate].
Qed.

Lemma cycle_results_other timeline rest :
  forall i results k,
    k ∉ map site_id rest ->
    cycle_results timeline i rest results !! k = results !! k.
Proof.
  induction rest as [|site rest IH]; intros i results k Hk; [reflexivity|].
  cbn [cycle_results]. simpl in Hk. apply not_elem_of_cons in Hk as [Hne Hk].
  rewrite IH by exact Hk. apply lookup_insert_ne. congruence.
Qed.

(** Every key of the cycle holds the entry of one of its sites. *)
Lemma cycle_results_in timeline rest :
  forall i results k,
    k ∈ map site_id rest ->
    exists j site,
      rest !! j = Some site /\ site_id site = k
      /\ cycle_results timeline i rest results !! k
         = Some (entry (timeline (i + j)%nat) site).
Proof.
  induction rest as [|site rest IH]; intros i results k Hk.
  - inversion Hk.
  - cbn [cycle_results].
    destruct (decide (k ∈ map site_id rest)) as [Hin|Hout].
    + destruct (IH (S i) (<[site_id site := entry (timeline i) site]> results) k Hin)
        as (j & site' & Hj & Hid & Hlook).
      exists (S j), site'. split; [exact Hj|]. split; [exact Hid|].
      rewrite Hlook. do 3 f_equal. lia.
    + simpl in Hk. apply elem_of_cons in Hk as [Hk|Hk]; [|contradiction].
      exists 0%nat, site. split; [reflexivity|]. split; [congruence|].
      rewrite cycle_results_other by exact Hout.
      rewrite Hk, lookup_insert_eq, Nat.add_0_r. reflexivity.
Qed.

(** With distinct ids, the key of site number [j] holds its own entry. *)
Lemma cycle_results_at timeline rest :
  forall i results j site,
    NoDup (map site_id rest) ->
    rest !! j = Some site ->
    cycle_results timeline i rest results !! site_id site
    = Some (entry (timeline (i + j)%nat) site).
Proof.
  induction rest as [|site0 rest IH]; intros i results j site Hnd Hj.
  - discriminate.
  - cbn [cycle_results]. simpl in Hnd. apply NoDup_cons in Hnd as [Hout Hnd].
    destruct j as [|j]; simpl in Hj.
    + injection Hj as ->. rewrite cycle_results_other by exact Hout.
      rewrite lookup_insert_eq, Nat.add_0_r. reflexivity.
    + rewrite (IH (S i) _ j site Hnd Hj). do 3 f_equal. lia.
Qed.

Lemma cycle_results_dom timeline rest :
  forall i results,
    dom (cycle_results timeline i rest results)
    = list_to_set (map site_id rest) ∪ dom results.
Proof.
  induction rest as [|site rest IH]; intros i results; cbn [cycle_results].
  - simpl. rewrite (left_id_L ∅ (∪)). reflexivity.
  - rewrite IH, dom_insert_L. simpl.
    rewrite (assoc_L (∪)), (comm_L (∪) (list_to_set _) {[site_id site]}).
    reflexivity.
Qed.

Lemma fetchAll_nonempty timeline sites :
  sites <> [] ->
  fetchAll timeline (Some sites) =
  (setFetching true ;;
   results <- fetch_loop timeline (Z.of_nat (length sites)) 0 sites ∅ ;;
   setWeatherData (fun prev => spread prev results) ;;
   setLastUpdated (now (timeline (length sites))) ;;
   setFetching false).
Proof. destruct sites; [congruence | reflexivity]. Qed.

Lemma fetchAll_settled timeline sites s :
  sites <> [] ->
  (forall j, settles (timeline j)) ->
  exists evs,
    fetchAll timeline (Some sites) s = (completed timeline sites s evs, Returned tt)
    /\ omap net evs = schedule sites.
Proof.
  intros Hne Hsettle. rewrite (fetchAll_nonempty _ _ Hne).
  unfold bind at 1. unfold setFetching at 1, modify. unfold bind at 1.
  match goal with |- context [fetch_loop _ ?n _ _ ?r ?s'] =>
    destruct (fetch_loop_settled timeline n Hsettle sites 0%nat r s') as (evs & -> & Hnet) end.
  exists evs. split.
  - reflexivity.
  - rewrite Hnet. apply loop_net_schedule. reflexivity.
Qed.

Lemma fetchAll_prefix timeline sites s :
  exists evs,
    trace (fetchAll timeline (Some sites) s).1 = trace s ++ evs
    /\ omap net evs `prefix_of` schedule sites.
Proof.
  destruct (decide (sites = [])) as [->|Hne].
  - exists []. simpl. rewrite app_nil_r. split; [reflexivity | apply prefix_nil].
  - rewrite (fetchAll_nonempty _ _ Hne).
    unfold bind at 1. unfold setFetching at 1, modify. unfold bind at 1.
    match goal with |- context [fetch_loop _ ?n _ _ ?r ?s'] =>
      destruct (fetch_loop_prefix timeline n sites 0%nat r s') as (evs & Hst & Hnet & Hthrow);
      destruct (fetch_loop timeline n 0%nat sites r s') as [s1 [results|e|]] end;
      simpl in Hst; subst s1; exists evs;
      (split; [reflexivity|]);
      rewrite <- (loop_net_schedule (Z.of_nat (length sites)) 0 sites) by reflexivity;
      exact Hnet.
Qed.

Lemma fetches_net evs : fetches (omap net evs) = fetches evs.
Proof.
  induction evs as [|ev evs IH]; [reflexivity|].
  unfold fetches in *. destruct ev; simpl; first [exact IH | f_equal; exact IH].
Qed.

Lemma delays_net evs : delays (omap net evs) = delays evs.
Proof.
  induction evs as [|ev evs IH]; [reflexivity|].
  unfold delays in *. destruct ev; simpl; first [exact IH | f_equal; exact IH].
Qed.

Lemma fetches_schedule sites : fetches (schedule sites) = map site_request sites.
Proof.
  unfold schedule. induction sites as [|site sites IH]; [reflexivity|].
  destruct sites as [|site' sites]; [reflexivity|].
  change (fetches (EvFetch (site_request site) :: EvDelay FETCH_DELAY
                   :: between (EvDelay FETCH_DELAY)
                        (map (fun site => EvFetch (site_request site)) (site' :: sites)))
          = site_request site :: map site_request (site' :: sites)).
  unfold fetches in *. cbn [omap list_omap]. rewrite IH. reflexivity.
Qed.

Lemma delays_schedule sites :
  delays (schedule sites) = replicate (length sites - 1) FETCH_DELAY.
Proof.
  unfold schedule. induction sites as [|site sites IH]; [reflexivity|].
  destruct sites as [|site' sites]; [reflexivity|].
  change (delays (EvFetch (site_request site) :: EvDelay FETCH_DELAY
                  :: between (EvDelay FETCH_DELAY)
                       (map (fun site => EvFetch (site_request site)) (site' :: sites)))
          = replicate (length (site :: site' :: sites) - 1) FETCH_DELAY).
  unfold delays in *. cbn [omap list_omap]. rewrite IH. simpl.
  rewrite Nat.sub_0_r. reflexivity.
Qed.

Lemma site_request_forecast site : site_request site = forecast_request site.
Proof. reflexivity. Qed.

Lemma fetches_app evs1 evs2 : fetches (evs1 ++ evs2) = fetches evs1 ++ fetches evs2.
Proof. apply omap_app. Qed.

Lemma delays_app evs1 evs2 : delays (evs1 ++ evs2) = delays evs1 ++ delays evs2.
Proof. apply omap_app. Qed.

(** When the loop gets done with every site it runs to its end: it
    returns the buffer [cycle_results] and issues exactly the fetches and
    delays of [loop_net]. *)
Lemma fetch_loop_done timeline n rest :
  forall i results s,
    (forall j site, rest !! j = Some site -> site_done (timeline (i + j)%nat) site) ->
    exists evs,
      fetch_loop timeline n i rest results s
      = (emitted s evs, Returned (cycle_results timeline i rest results))
      /\ omap net evs = loop_net n i rest.
Proof.
  induction rest as [|site rest IH]; intros i results s Hdone.
  - exists []. rewrite emitted_nil. split; reflexivity.
  - rewrite fetch_loop_cons. cbn zeta. cbn [cycle_results loop_net]. unfold entry.
    pose proof (Hdone 0%nat site eq_refl) as Hhead.
    rewrite Nat.add_0_r in Hhead. unfold site_done in Hhead.
    assert (Hrest : forall j site', rest !! j = Some site' ->
                                    site_done (timeline (S i + j)%nat) site').
    { intros j site' Hj. replace (S i + j)%nat with (i + S j)%nat by lia.
      apply Hdone. exact Hj. }
    destruct (fetch_result (timeline i) site) as [weather|e|]; [| |contradiction].
    + destruct (firestore_add _ _ _) as [x|e|]; [| |congruence];
        rewrite continue_run, !emitted_emitted;
        match goal with |- context [fetch_loop _ _ _ _ ?r ?s'] =>
          destruct (IH (S i) r s' Hrest) as (evs & -> & Hnet) end;
        rewrite emitted_emitted; eexists; (split; [reflexivity|]);
        rewrite !omap_app, Hnet; destruct (Z.of_nat i <? n - 1); reflexivity.
    + rewrite continue_run, !emitted_emitted.
      match goal with |- context [fetch_loop _ _ _ _ ?r ?s'] =>
        destruct (IH (S i) r s' Hrest) as (evs & -> & Hnet) end.
      rewrite emitted_emitted; eexists; (split; [reflexivity|]).
      rewrite !omap_app, Hnet; destruct (Z.of_nat i <? n - 1); reflexivity.
Qed.

(** When site number [k] is the first one the loop does not get done
    with, the loop stays suspended there: it has issued the fetches of the
    sites up to [k] and the delays between them, and nothing for a later
    site. *)
Lemma fetch_loop_stalls timeline n rest :
  forall i results s k site,
    n = Z.of_nat (i + length rest) ->
    rest !! k = Some site ->
    (forall j site', (j < k)%nat -> rest !! j = Some site' ->
                     site_done (timeline (i + j)%nat) site') ->
    ~ site_done (timeline (i + k)%nat) site ->
    exists evs,
      fetch_loop timeline n i rest results s = (emitted s evs, Blocked)
      /\ fetches evs = map site_request (take (S k) rest)
      /\ delays evs = replicate k FETCH_DELAY.
Proof.
  induction rest as [|site0 rest IH]; intros i results s k site Hn Hk Hdone Hstall;
    [discriminate|].
  rewrite fetch_loop_cons. cbn zeta. destruct k as [|k].
  - injection Hk as ->. rewrite Nat.add_0_r in Hstall. unfold site_done in Hstall.
    destruct (fetch_result (timeline i) site) as [weather|e|].
    + destruct (firestore_add _ _ _) as [x|e|];
        [destruct Hstall; discriminate | destruct Hstall; discriminate |].
      rewrite emitted_emitted. eexists. split; [reflexivity|]. split; reflexivity.
    + destruct Hstall. exact I.
    + eexists. split; [reflexivity|]. split; reflexivity.
  - simpl in Hk.
    pose proof (Hdone 0%nat site0 ltac:(lia) eq_refl) as Hhead.
    rewrite Nat.add_0_r in Hhead. unfold site_done in Hhead.
    assert (Hrest : forall j site', (j < k)%nat -> rest !! j = Some site' ->
                                    site_done (timeline (S i + j)%nat) site').
    { intros j site' Hj Hlook. replace (S i + j)%nat with (i + S j)%nat by lia.
      apply Hdone; [lia | exact Hlook]. }
    assert (Hstall' : ~ site_done (timeline (S i + k)%nat) site)
      by (replace (S i + k)%nat with (i + S k)%nat by lia; exact Hstall).
    assert (Hn' : n = Z.of_nat (S i + length rest)%nat) by (rewrite Hn; simpl; f_equal; lia).
    assert (Hdelay : (Z.of_nat i <? n - 1) = true).
    { apply Z.ltb_lt. pose proof (lookup_lt_Some _ _ _ Hk). simpl in Hn. lia. }
    destruct (fetch_result (timeline i) site0) as [weather|e|]; [| |contradiction].
    + destruct (firestore_add _ _ _) as [x|e|]; [| |congruence];
        rewrite continue_run, !emitted_emitted, Hdelay;
        match goal with |- context [fetch_loop _ _ _ _ ?r ?s'] =>
          destruct (IH (S i) r s' k site Hn' Hk Hrest Hstall')
            as (evs & -> & Hfetches & Hdelays) end;
        rewrite emitted_emitted; eexists; (split; [reflexivity|]);
        rewrite !fetches_app, !delays_app, Hfetches, Hdelays; split; reflexivity.
    + rewrite continue_run, !emitted_emitted, Hdelay.
      match goal with |- context [fetch_loop _ _ _ _ ?r ?s'] =>
        destruct (IH (S i) r s' k site Hn' Hk Hrest Hstall')
          as (evs & -> & Hfetches & Hdelays) end.
      rewrite emitted_emitted; eexists; (split; [reflexivity|]).
      rewrite !fetches_app, !delays_app, Hfetches, Hdelays; split; reflexivity.
Qed.

(** A cycle in which the loop gets done with every site completes. *)
Lemma fetchAll_done timeline sites s :
  sites <> [] ->
  (forall j site, sites !! j = Some site -> site_done (timeline j) site) ->
  exists evs,
    fetchAll timeline (Some sites) s = (completed timeline sites s evs, Returned tt)
    /\ omap net evs = schedule sites.
Proof.
  intros Hne Hdone. rewrite (fetchAll_nonempty _ _ Hne).
  unfold bind at 1. unfold setFetching at 1, modify. unfold bind at 1.
  match goal with |- context [fetch_loop _ ?n _ _ ?r ?s'] =>
    destruct (fetch_loop_done timeline n sites 0%nat r s' Hdone) as (evs & -> & Hnet) end.
  exists evs. split.
  - reflexivity.
  - rewrite Hnet. apply loop_net_schedule. reflexivity.
Qed.

(** A cycle whose loop stalls at site number [k] stays suspended there. *)
Lemma fetchAll_stalls timeline sites s k site :
  sites !! k = Some site ->
  (forall j site', (j < k)%nat -> sites !! j = Some site' -> site_done (timeline j) site') ->
  ~ site_done (timeline k) site ->
  exists evs,
    fetchAll timeline (Some sites) s
    = ({| trace := trace s ++ evs; weatherData := weatherData s;
          fetching := true; lastUpdated := lastUpdated s |}, Blocked)
    /\ fetches evs = map site_request (take (S k) sites)
    /\ delays evs = replicate k FETCH_DELAY.
Proof.
  intros Hk Hdone Hstall.
  assert (Hne : sites <> []) by (intros ->; discriminate).
  rewrite (fetchAll_nonempty _ _ Hne).
  unfold bind at 1. unfold setFetching at 1, modify. unfold bind at 1.
  match goal with |- context [fetch_loop _ ?n _ _ ?r ?s'] =>
    destruct (fetch_loop_stalls timeline n sites 0%nat r s' k site eq_refl Hk Hdone Hstall)
      as (evs & -> & Hfetches & Hdelays) end.
  exists evs. split; [reflexivity|]. split; assumption.
Qed.

(** C1, as the code has it: a cycle over a non-empty list issues its
    fetches strictly one after the other, in list order, each with the
    coordinates of its own site: the fetch for a site is issued only once
    the loop is done with the site before it (its fetch and the append of
    its observation have settled).  When the loop gets done with every
    site, whether the fetches succeed or fail, the cycle returns having
    issued exactly one fetch per site, with one delay of 100 ms between
    consecutive fetches and none after the last.  When site number [k] is
    the first whose fetch or append never settles, the cycle stays
    suspended there, having issued exactly the fetches of the sites up to
    [k] and [k] delays. *)
Theorem fetchAll_schedule timeline sites s :
  sites <> [] ->
  exists evs,
    trace (fetchAll timeline (Some sites) s).1 = trace s ++ evs
    /\ omap net evs
       `prefix_of` between (EvDelay 100) (map (fun site => EvFetch (forecast_request site)) sites)
    /\ ((forall i site, sites !! i = Some site -> site_done (timeline i) site) ->
        (fetchAll timeline (Some sites) s).2 = Returned tt
        /\ omap net evs
           = between (EvDelay 100) (map (fun site => EvFetch (forecast_request site)) sites)
        /\ fetches evs = map forecast_request sites
        /\ length (fetches evs) = length sites
        /\ delays evs = replicate (length sites - 1) 100
        /\ length (delays evs) = (length sites - 1)%nat)
    /\ (forall k site,
          sites !! k = Some site ->
          (forall i site', (i < k)%nat -> sites !! i = Some site' ->
                           site_done (timeline i) site') ->
          ~ site_done (timeline k) site ->
          (fetchAll timeline (Some sites) s).2 = Blocked
          /\ fetches evs = map forecast_request (take (S k) sites)
          /\ delays evs = replicate k 100).
Proof.
  intros Hne. destruct (fetchAll_prefix timeline sites s) as (evs & Htrace & Hprefix).
  exists evs. split; [exact Htrace|]. split; [exact Hprefix|]. split.
  - intros Hdone.
    destruct (fetchAll_done timeline sites s Hne Hdone) as (evs' & Hrun & Hnet).
    rewrite Hrun in Htrace |- *. cbn [fst snd completed trace] in *.
    apply app_inv_head in Htrace. subst evs'.
    split; [reflexivity|]. split; [exact Hnet|].
    assert (Hf : fetches evs = map forecast_request sites)
      by (rewrite <- fetches_net, Hnet; apply fetches_schedule).
    assert (Hd : delays evs = replicate (length sites - 1) 100)
      by (rewrite <- delays_net, Hnet; apply delays_schedule).
    rewrite Hf, Hd, length_map, length_replicate. repeat split.
  - intros k site Hk Hdone Hstall.
    destruct (fetchAll_stalls timeline sites s k site Hk Hdone Hstall)
      as (evs' & Hrun & Hfetches & Hdelays).
    rewrite Hrun in Htrace |- *. cbn [fst snd trace] in *.
    apply app_inv_head in Htrace. subst evs'.
    split; [reflexivity|]. split; [exact Hfetches | exact Hdelays].
Qed.

(** C1, as the spec has it, fails: with the weather service up, so that
    every fetch succeeds, and appends that never settle, the cycle over
    the two sites "a" and "b" issues one fetch and no delay. *)
Lemma pending_append_stops_schedule :
  (forall i site, [site_a; site_b] !! i = Some site ->
                  exists weather, fetch_result world_append_pending site = Returned weather)
  /\ length [site_a; site_b] = 2%nat
  /\ fetches (trace (fetchAll (fun _ => world_append_pending)
                       (Some [site_a; site_b]) sys_stale).1)
     = [forecast_request site_a]
  /\ length (fetches (trace (fetchAll (fun _ => world_append_pending)
                               (Some [site_a; site_b]) sys_stale).1)) = 1%nat
  /\ delays (trace (fetchAll (fun _ => world_append_pending)
                      (Some [site_a; site_b]) sys_stale).1) = [].
Proof.
  split.
  - intros i site _. exists (weather_of sample_body). reflexivity.
  - rewrite fetchAll_nonempty by discriminate.
    unfold bind at 1 2 3. unfold setFetching at 1 2 3, modify.
    unfold bind at 1 2 3. rewrite fetch_loop_cons.
    repeat split.
Qed.




(** C4: a call with no sites changes nothing; a completed cycle leaves
    every key that is no site of its list as it was, and binds every key of
    its list to what this cycle recorded for a site with that id. *)
Theorem merge_overwrites_fetched_keys_only timeline sites s :
  fetchAll timeline None s = (s, Returned tt)
  /\ fetchAll timeline (Some []) s = (s, Returned tt)
  /\ ((forall j, settles (timeline j)) ->
      let final := (fetchAll timeline (Some sites) s).1 in
      (forall k, k ∉ map site_id sites ->
                 weatherData final !! k = weatherData s !! k)
      /\ (forall k, k ∈ map site_id sites ->
            exists j site,
              sites !! j = Some site /\ site_id site = k
              /\ weatherData final !! k = Some (entry (timeline j) site))).
Proof.
  split; [reflexivity|]. split; [reflexivity|].
  intros Hsettle final. subst final.
  destruct (decide (sites = [])) as [->|Hne].
  - split; [reflexivity|]. intros k Hk. inversion Hk.
  - destruct (fetchAll_settled timeline sites s Hne Hsettle) as (evs & -> & _).
    cbn [fst completed weatherData]. unfold spread. split.
    + intros k Hk. rewrite lookup_union_r; [reflexivity|].
      rewrite cycle_results_other by exact Hk. apply lookup_empty.
    + intros k Hk.
      destruct (cycle_results_in timeline sites 0 ∅ k Hk) as (j & site & Hj & Hid & Hlook).
      exists j, site. split; [exact Hj|]. split; [exact Hid|].
      apply lookup_union_Some_l. exact Hlook.
Qed.

(* ===================================================================== *)
(** * Observation logger: properties *)
(* ===================================================================== *)

(** C7, as the code has it: a failed append is caught inside
    [logObservation] and reported on the console, so the logger never
    throws and a cycle still records the fetched weather and completes;
    the call is awaited, so while the append is pending the loop stays
    suspended at it and moves on only once it has settled. *)
Theorem logObservation_failure_contained timeline s i site weather :
  (forall w siteId wr s0 e, (logObservation w siteId wr s0).2 <> Threw e)
  /\ (forall w siteId wr s0 e,
        firestore_add w "observations"
          {| obs_siteId := siteId; obs_weather := wr; obs_timestamp := now w |}
        = Rejected e ->
        logObservation w siteId wr s0
        = (emitted s0
             [EvAddDoc "observations"
                {| obs_siteId := siteId; obs_weather := wr; obs_timestamp := now w |};
              EvConsoleError ("Failed to log observation for " +:+ siteId +:+ ":") e],
           Returned tt))
  /\ (forall n rest results,
        fetch_result (timeline i) site = Returned weather ->
        firestore_add (timeline i) "observations" (observation (timeline i) site weather)
        = Pending ->
        fetch_loop timeline n i (site :: rest) results s
        = (emitted s [EvFetch (site_request site);
                      EvAddDoc "observations" (observation (timeline i) site weather)],
           Blocked))
  /\ (forall sites,
        (forall j, settles (timeline j)) ->
        NoDup (map site_id sites) ->
        sites !! i = Some site ->
        fetch_result (timeline i) site = Returned weather ->
        (fetchAll timeline (Some sites) s).2 = Returned tt
        /\ weatherData (fetchAll timeline (Some sites) s).1 !! site_id site
           = Some (Some weather)).
Proof.
  split; [|split; [|split]].
  - intros w siteId wr s0 e. rewrite logObservation_unfold. cbn zeta.
    destruct (firestore_add _ _ _); discriminate.
  - intros w siteId wr s0 e Hrej. rewrite logObservation_unfold. cbn zeta.
    rewrite Hrej. reflexivity.
  - intros n rest results Hfetch Hpending.
    rewrite fetch_loop_cons. cbn zeta. rewrite Hfetch, Hpending, emitted_emitted.
    reflexivity.
  - intros sites Hsettle Hnd Hi Hfetch.
    assert (Hne : sites <> []) by (intros ->; discriminate).
    destruct (fetchAll_settled timeline sites s Hne Hsettle) as (evs & -> & _).
    split; [reflexivity|]. cbn [fst completed weatherData]. unfold spread.
    apply lookup_union_Some_l.
    rewrite (cycle_results_at timeline sites 0 ∅ i site Hnd Hi).
    unfold entry. simpl. rewrite Hfetch. reflexivity.
Qed.

(** C7, as the spec has it, fails: with the weather service up and the
    append for site "a" never settling, the cycle over "a" and "b" stays
    suspended and the fetch for "b" is never issued. *)
Lemma pending_append_blocks_next_site :
  (forall site, exists weather, fetch_result world_append_pending site = Returned weather)
  /\ (fetchAll (fun _ => world_append_pending) (Some [site_a; site_b]) sys0).2 = Blocked
  /\ fetches (trace (fetchAll (fun _ => world_append_pending)
                       (Some [site_a; site_b]) sys0).1)
     = [site_request site_a]
  /\ EvFetch (site_request site_b)
     ∉ trace (fetchAll (fun _ => world_append_pending) (Some [site_a; site_b]) sys0).1.
Proof.
  assert (Hrun : fetchAll (fun _ => world_append_pending) (Some [site_a; site_b]) sys0
          = ({| trace := [EvFetch (site_request site_a);
                          EvAddDoc "observations"
                            (observation world_append_pending site_a (weather_of sample_body))];
                weatherData := ∅; fetching := true; lastUpdated := None |}, Blocked)).
  { rewrite fetchAll_nonempty by discriminate.
    unfold bind at 1. unfold setFetching at 1, modify. unfold bind at 1.
    rewrite fetch_loop_cons. reflexivity. }
  split.
  - intros site. exists (weather_of sample_body). reflexivity.
  - rewrite Hrun. split; [reflexivity|]. split; [reflexivity|].
    cbn [fst trace]. intros Hin.
    apply elem_of_cons in Hin as [Heq|Hin]; [|apply elem_of_cons in Hin as [Heq|Hin]].
    + vm_compute in Heq. discriminate.
    + discriminate.
    + inversion Hin.
Qed.

(* ===================================================================== *)
(** * Site store: properties *)
(* ===================================================================== *)

Lemma remove_run ack id s :
  remove ack id s =
  match ack with
  | Resolved _ =>
      ({| db := delete (doc "sites" id) (db s);
          sites := filter (fun site => site_id site ≠ id) (sites s) |}, Returned tt)
  | Rejected e => (s, Threw e)
  | Pending => (s, Blocked)
  end.
Proof. destruct ack; reflexivity. Qed.

(** C9: [remove(id)] never touches a document of the observations
    collection, whatever the id and however the delete ends; once it has
    returned, the site list holds no site with that id (and still holds
    every other site), and the site document is gone.  A delete that did
    not go through leaves everything as it was. *)
Theorem remove_keeps_observations ack id s :
  (forall oid,
      db (remove ack id s).1 !! doc "observations" oid
      = db s !! doc "observations" oid)
  /\ ((remove ack id s).2 = Returned tt ->
      (forall site, site ∈ sites (remove ack id s).1 -> site_id site <> id)
      /\ (forall site, site ∈ sites s -> site_id site <> id ->
                       site ∈ sites (remove ack id s).1)
      /\ db (remove ack id s).1 !! doc "sites" id = None)
  /\ ((remove ack id s).2 <> Returned tt -> (remove ack id s).1 = s).
Proof.
  rewrite remove_run. destruct ack as [[]|e|]; cbn [fst snd db sites].
  - split; [|split].
    + intros oid. apply lookup_delete_ne. unfold doc. discriminate.
    + intros _. split; [|split].
      * intros site Hin. apply list_elem_of_filter in Hin as [Hne _]. exact Hne.
      * intros site Hin Hne. apply list_elem_of_filter. split; assumption.
      * apply lookup_delete_eq.
    + intros Hno. contradiction.
  - split; [reflexivity|]. split; [discriminate | reflexivity].
  - split; [reflexivity|]. split; [discriminate | reflexivity].
Qed.

(* ===================================================================== *)
(** * Site form: properties *)
(* ===================================================================== *)

(** C8: the form calls [onSave] exactly when the trimmed name and state
    are not empty and both coordinates parse to numbers with the latitude
    in [-90, 90] and the longitude in [-180, 180]; the site it hands over
    has the trimmed name, the trimmed state in upper case and these parsed
    coordinates.  Any other input is rejected: nothing is submitted. *)
Theorem handleSubmit_validates trim toUpperCase parseFloat f site :
  handleSubmit trim toUpperCase parseFloat f = Some site
  <->
  trim (form_name f) <> "" /\ trim (form_state f) <> ""
  /\ isNaN (parseFloat (form_lat f)) = false
  /\ isNaN (parseFloat (form_lon f)) = false
  /\ js_ge (parseFloat (form_lat f)) (of_Z (-90)) = true
  /\ js_le (parseFloat (form_lat f)) (of_Z 90) = true
  /\ js_ge (parseFloat (form_lon f)) (of_Z (-180)) = true
  /\ js_le (parseFloat (form_lon f)) (of_Z 180) = true
  /\ site = {| in_name := trim (form_name f);
               in_state := toUpperCase (trim (form_state f));
               in_lat := parseFloat (form_lat f);
               in_lon := parseFloat (form_lon f) |}.
Proof.
  unfold handleSubmit, canSave, validCoords, parsedLat, parsedLon.
  split.
  - destruct (negb _) eqn:Hcan; [discriminate|].
    intros Hsite. injection Hsite as <-.
    apply negb_false_iff in Hcan.
    repeat match goal with
           | H : _ && _ = true |- _ => apply andb_true_iff in H as [? ?]
           | H : negb _ = true |- _ => apply negb_true_iff in H
           | H : bool_decide _ = true |- _ => apply bool_decide_eq_true in H
           end.
    repeat split; (assumption || reflexivity).
  - intros (Hname & Hstate & Hlat & Hlon & H1 & H2 & H3 & H4 & ->).
    rewrite Hlat, Hlon, H1, H2, H3, H4.
    rewrite !bool_decide_eq_true_2 by assumption. reflexivity.
Qed.


(* ===================================================================== *)
(** * Compass label: properties *)
(* ===================================================================== *)

Lemma lit_225 : lit 225 1 = S754_finite false 6333186975989760 (-48).
Proof. vm_compute. reflexivity. Qed.

Lemma of_Z_360 : of_Z 360 = S754_finite false 6333186975989760 (-44).
Proof. vm_compute. reflexivity. Qed.

Lemma compare_cont_le p q :
  match Pos.compare_cont Eq p q with Gt => false | _ => true end = true ->
  Zpos p <= Zpos q.
Proof.
  intros H. change (Pos.compare_cont Eq p q) with (Pos.compare p q) in H.
  destruct (Pos.compare_spec p q); try discriminate; lia.
Qed.

(** A well-formed positive double that is at most 360. *)
Lemma le_360_bounds m e :
  valid (S754_finite false m e) ->
  js_le (S754_finite false m e) (of_Z 360) = true ->
  -1074 <= e <= -44 /\ Zpos (digits2_pos m) <= 53 /\ Zpos m <= 360 * 2 ^ (- e).
Proof.
  unfold valid, valid_binary, bounded, canonical_mantissa.
  intros Hvalid Hle. apply andb_true_iff in Hvalid as [Hcan _].
  apply Z.eqb_eq in Hcan. unfold fexp, emin, prec, emax in Hcan.
  rewrite of_Z_360 in Hle. unfold js_le, SFleb, SFcompare in Hle.
  pose proof (digits2_pos_bounds m) as [_ Hm].
  assert (Hm53 : Zpos m < 2 ^ 53).
  { eapply Z.lt_le_trans; [exact Hm|]. apply Z.pow_le_mono_r; lia. }
  destruct (Z.compare_spec e (-44)) as [->|Hlt|Hgt].
  - split; [lia|]. split; [lia|].
    replace (2 ^ (- -44)) with 17592186044416 by (vm_compute; reflexivity).
    apply compare_cont_le in Hle. lia.
  - split; [lia|]. split; [lia|].
    assert (H45 : 2 ^ 45 <= 2 ^ (- e)) by (apply Z.pow_le_mono_r; lia).
    replace (2 ^ 45) with 35184372088832 in H45 by (vm_compute; reflexivity).
    replace (2 ^ 53) with 9007199254740992 in Hm53 by (vm_compute; reflexivity). lia.
  - discriminate.
Qed.

Lemma div_225_bound m e :
  valid (S754_finite false m e) ->
  js_le (S754_finite false m e) (of_Z 360) = true ->
  js_div (S754_finite false m e) (lit 225 1) = S754_zero false
  \/ exists mf ef,
       js_div (S754_finite false m e) (lit 225 1) = S754_finite false mf ef
       /\ ef < 0 /\ 2 * Zpos mf < 33 * 2 ^ (- ef).
Proof.
  intros Hvalid Hle.
  destruct (le_360_bounds m e Hvalid Hle) as (He & Hd & Hm).
  rewrite lit_225. unfold js_div, SFdiv, SFdiv_core_binary. cbn [xorb].
  change (Zdigits2 (Zpos 6333186975989760)) with 53.
  change (Zdigits2 (Zpos m)) with (Zpos (digits2_pos m)).
  set (d1 := Zpos (digits2_pos m)) in *.
  assert (Hd0 : 0 < d1) by (unfold d1; lia).
  assert (He' : Z.min (fexp prec emax (d1 + e - (53 + -48))) (e - -48)
                = fexp prec emax (d1 + e - 5)).
  { replace (d1 + e - (53 + -48)) with (d1 + e - 5) by lia.
    unfold fexp, emin, prec, emax. lia. }
  rewrite He'. set (e' := fexp prec emax (d1 + e - 5)) in *.
  assert (He'b : e' <= -49 /\ e' <= e) by (unfold e', fexp, emin, prec, emax; lia).
  destruct (e - -48 - e') as [|s|s] eqn:Hs; [lia| |lia].
  rewrite Z.shiftl_mul_pow2 by lia.
  pose proof (Z_div_mod (Zpos m * 2 ^ Zpos s) (Zpos 6333186975989760) ltac:(lia)) as Hdiv.
  destruct (Z.div_eucl (Zpos m * 2 ^ Zpos s) (Zpos 6333186975989760)) as [q r].
  destruct Hdiv as [Hdiv Hr].
  assert (Hps : 0 < 2 ^ Zpos s) by (apply Z.pow_pos_nonneg; lia).
  assert (Hpe : 0 < 2 ^ (- e)) by (apply Z.pow_pos_nonneg; lia).
  assert (Hpe' : 0 < 2 ^ (- e')) by (apply Z.pow_pos_nonneg; lia).
  assert (Hpow : 2 ^ (- e) * 2 ^ Zpos s = 281474976710656 * 2 ^ (- e')).
  { replace 281474976710656 with (2 ^ 48) by (vm_compute; reflexivity).
    rewrite <- !Z.pow_add_r by lia. f_equal. lia. }
  apply binary_round_aux_bound; [nia|lia|].
  assert (Zpos m * 2 ^ Zpos s <= 360 * 2 ^ (- e) * 2 ^ Zpos s)
    by (apply Z.mul_le_mono_nonneg_r; lia).
  nia.
Qed.

(** [Math.round] of a zero or of a positive double below 16.5 is a zero
    or one of the integers 1 to 16. *)
Lemma Math_round_small q :
  (exists s, q = S754_zero s)
  \/ (exists mf ef, q = S754_finite false mf ef /\ ef < 0
                    /\ 2 * Zpos mf < 33 * 2 ^ (- ef)) ->
  exists n s, 0 <= n <= 16
              /\ Math_round q = if n =? 0 then S754_zero s else of_Z n.
Proof.
  intros [(s & ->)|(mf & ef & -> & Hef & Hmf)].
  - exists 0, s. split; [lia | reflexivity].
  - unfold Math_round. destruct (Z.leb_spec 0 ef) as [|_]; [lia|].
    cbn [cond_Zopp].
    set (n := (2 * Zpos mf + 2 ^ (- ef)) / 2 ^ (1 - ef)).
    exists n, false. split; [|reflexivity].
    assert (Hp : 0 < 2 ^ (- ef)) by (apply Z.pow_pos_nonneg; lia).
    assert (Hp1 : 2 ^ (1 - ef) = 2 * 2 ^ (- ef)).
    { replace (1 - ef) with (1 + - ef) by lia. rewrite Z.pow_add_r by lia. reflexivity. }
    unfold n. rewrite Hp1. split.
    + apply Z.div_pos; lia.
    + apply Z.lt_succ_r. apply Z.div_lt_upper_bound; lia.
Qed.

(** The remainder by 16 of what [Math.round] produced is an index of the
    compass array. *)
Lemma round_rem_index n s :
  0 <= n <= 16 ->
  array_index (js_rem (if n =? 0 then S754_zero s else of_Z n) (of_Z 16))
  = Some (Z.to_nat (n mod 16)).
Proof.
  intros Hn. rewrite <- (Z2Nat.id n) by lia.
  assert (Hk : (Z.to_nat n < 17)%nat) by lia.
  revert Hk. generalize (Z.to_nat n) as k. intros k Hk.
  do 17 (destruct k as [|k]; [destruct s; vm_compute; reflexivity|]).
  lia.
Qed.

Lemma windDirIndex_in_bounds deg :
  valid deg ->
  js_le (of_Z 0) deg = true ->
  js_le deg (of_Z 360) = true ->
  exists i, (i < 16)%nat /\ array_index (windDirIndex deg) = Some i.
Proof.
  intros Hvalid H0 H360.
  assert (Hq : (exists s, js_div deg (lit 225 1) = S754_zero s)
               \/ exists mf ef, js_div deg (lit 225 1) = S754_finite false mf ef
                                /\ ef < 0 /\ 2 * Zpos mf < 33 * 2 ^ (- ef)).
  { destruct deg as [s|s| |s m e]; try (destruct s; discriminate); try discriminate.
    - left. exists s. rewrite lit_225. destruct s; reflexivity.
    - destruct s; [discriminate|].
      destruct (div_225_bound m e Hvalid H360) as [Hz|Hf]; [left; eauto | right; exact Hf]. }
  destruct (Math_round_small _ Hq) as (n & s & Hn & Hround).
  exists (Z.to_nat (n mod 16)). split.
  - pose proof (Z.mod_pos_bound n 16 ltac:(lia)). lia.
  - unfold windDirIndex. rewrite Hround. apply round_rem_index. exact Hn.
Qed.

(** C10: for a degree value that is a well-formed number between 0 and
    360, [Math.round(deg / 22.5) % 16] is an index of the 16-element array
    [dirs], so [windDirLabel] returns one of its labels; 0 and 360 both
    read "N", and [null] reads "---". *)
Theorem windDirLabel_in_bounds deg :
  valid deg ->
  js_le (of_Z 0) deg = true ->
  js_le deg (of_Z 360) = true ->
  (exists i label,
      (i < length dirs)%nat
      /\ array_index (windDirIndex deg) = Some i
      /\ dirs !! i = Some label
      /\ windDirLabel (Some deg) = Some label)
  /\ length dirs = 16%nat
  /\ windDirLabel (Some (of_Z 0)) = Some "N"
  /\ windDirLabel (Some (of_Z 360)) = Some "N"
  /\ windDirLabel None = Some "---".
Proof.
  intros Hvalid H0 H360. split.
  - destruct (windDirIndex_in_bounds deg Hvalid H0 H360) as (i & Hi & Hidx).
    destruct (lookup_lt_is_Some_2 dirs i Hi) as [label Hlabel].
    exists i, label. unfold windDirLabel. rewrite Hidx.
    repeat split; assumption.
  - repeat split; vm_compute; reflexivity.
Qed.

(* ===================================================================== *)
(** * The properties on the sample sites and worlds *)
(* ===================================================================== *)

(** The weather service answers 500 for site "b": the client throws the
    error that names this status. *)
Lemma fetchWeatherData_http_error_witness :
  (fetchWeatherData world_500 (site_lat site_b) (site_lon site_b) sys0).2
  = Threw (Error "Weather API error: 500").
Proof.
  exact (proj1 (fetchWeatherData_http_error world_500 (site_lat site_b) (site_lon site_b)
                  sys0 {| status := 500; json := Rejected (Error "Unexpected token") |}
                  eq_refl ltac:(simpl; lia))).
Defined.

(** The sample response, with 0, 0.5 and 1.0 mm of rain, is reported as
    0.06 in. *)
Lemma precip24hr_rounded_inches_witness :
  exists weather,
    (fetchWeatherData world_up (site_lat site_a) (site_lon site_a) sys0).2
    = Returned weather
    /\ precip24hr weather = lit 6 2.
Proof.
  destruct (precip24hr_rounded_inches world_up (site_lat site_a) (site_lon site_a) sys0
              {| status := 200; json := Resolved sample_body |} sample_body
              eq_refl eq_refl eq_refl)
    as (weather & Hrun & _ & Hsample).
  - repeat constructor; discriminate.
  - exists weather. split; [exact Hrun | apply Hsample; reflexivity].
Defined.

(** The sample response: 20 degrees Celsius read 68, the last humidity is
    kept as it is, 10 km/h read 6.2, and the empty wind direction series
    reads null. *)
Lemma instantaneous_fields_witness :
  exists weather,
    (fetchWeatherData world_up (site_lat site_a) (site_lon site_a) sys0).2
    = Returned weather
    /\ tempF weather = Some (of_Z 68)
    /\ humidity weather = Some (of_Z 55)
    /\ windSpeedMph weather = Some (lit 62 1)
    /\ windDir weather = None.
Proof.
  destruct (instantaneous_fields_are_last_values world_up (site_lat site_a)
              (site_lon site_a) sys0
              {| status := 200; json := Resolved sample_body |} sample_body
              eq_refl eq_refl eq_refl)
    as (weather & Hrun & _ & Hhum & _ & _ & Hdir & _ & _ & Htemp & Hwind).
  exists weather. split; [exact Hrun|].
  split; [apply (Htemp [Some (of_Z 18); None]); reflexivity|].
  split; [exact Hhum|].
  split; [apply (Hwind [Some (of_Z 7)]); reflexivity | exact Hdir].
Defined.

(** In the sample timeline every promise settles. *)
Lemma timeline_b_fails_settles : forall j, settles (timeline_b_fails j).
Proof.
  intros j. unfold settles. split; [|split].
  - intros req. destruct j as [|[|j]]; discriminate.
  - intros req res Hres. destruct j as [|[|j]]; injection Hres as <-; discriminate.
  - intros path d. destruct j as [|[|j]]; discriminate.
Defined.

(** The two sample sites have distinct ids. *)
Lemma sample_ids_distinct : NoDup (map site_id [site_a; site_b]).
Proof.
  apply NoDup_cons. split; [|apply NoDup_singleton].
  intros Hin. apply list_elem_of_singleton in Hin. discriminate.
Defined.

(** In the sample timeline the loop gets done with both sites. *)
Lemma timeline_b_fails_done :
  forall i site, [site_a; site_b] !! i = Some site -> site_done (timeline_b_fails i) site.
Proof.
  intros i site Hi. destruct i as [|[|i]]; [| |discriminate];
    injection Hi as <-; unfold site_done.
  - change (fetch_result (timeline_b_fails 0) site_a) with (Returned (weather_of sample_body)).
    discriminate.
  - change (fetch_result (timeline_b_fails 1) site_b)
      with (@Threw Weather (Error "Weather API error: 500")).
    exact I.
Defined.

(** A cycle over "a" and "b", the second fetch failing: fetch, one delay
    of 100 ms, fetch, each request with the coordinates of its site.  When
    the service never answers for "b" the cycle stays suspended after the
    same two fetches and the delay between them. *)
Lemma fetchAll_schedule_witness :
  (exists evs,
     (fetchAll timeline_b_fails (Some [site_a; site_b]) sys0).2 = Returned tt
     /\ trace (fetchAll timeline_b_fails (Some [site_a; site_b]) sys0).1 = evs
     /\ omap net evs = [EvFetch (forecast_request site_a); EvDelay 100;
                        EvFetch (forecast_request site_b)]
     /\ latitude <$> fetches evs = [lit 46877 3; of_Z 44]
     /\ length (fetches evs) = 2%nat
     /\ length (delays evs) = 1%nat)
  /\ (exists evs,
        (fetchAll timeline_b_silent (Some [site_a; site_b]) sys0).2 = Blocked
        /\ trace (fetchAll timeline_b_silent (Some [site_a; site_b]) sys0).1 = evs
        /\ fetches evs = [forecast_request site_a; forecast_request site_b]
        /\ delays evs = [100]).
Proof.
  split.
  - destruct (fetchAll_schedule timeline_b_fails [site_a; site_b] sys0 ltac:(discriminate))
      as (evs & Htrace & _ & Hdone & _).
    destruct (Hdone timeline_b_fails_done)
      as (Hret & Hnet & Hrequests & Hfetches & _ & Hdelays).
    exists evs. split; [exact Hret|]. split; [exact Htrace|]. split; [exact Hnet|].
    split; [rewrite Hrequests; reflexivity|]. split; assumption.
  - destruct (fetchAll_schedule timeline_b_silent [site_a; site_b] sys0 ltac:(discriminate))
      as (evs & Htrace & _ & _ & Hstall).
    destruct (Hstall 1%nat site_b eq_refl) as (Hblocked & Hfetches & Hdelays).
    + intros i site' Hi Hlook. destruct i as [|i]; [|lia]. injection Hlook as <-.
      unfold site_done.
      change (fetch_result (timeline_b_silent 0) site_a)
        with (Returned (weather_of sample_body)).
      discriminate.
    + unfold site_done.
      change (fetch_result (timeline_b_silent 1) site_b) with (@Blocked Weather).
      exact (fun H => H).
    + exists evs. split; [exact Hblocked|]. split; [exact Htrace|].
      split; [exact Hfetches | exact Hdelays].
Defined.


(** The key "z" of an earlier cycle survives a cycle over "a" and "b";
    a call with no sites changes nothing. *)
Lemma merge_overwrites_fetched_keys_only_witness :
  weatherData (fetchAll timeline_b_fails (Some [site_a; site_b]) sys_stale).1 !! "z"
  = Some None
  /\ fetchAll timeline_b_fails (Some []) sys_stale = (sys_stale, Returned tt).
Proof.
  destruct (merge_overwrites_fetched_keys_only timeline_b_fails [site_a; site_b] sys_stale)
    as (_ & Hempty & Hcycle).
  destruct (Hcycle timeline_b_fails_settles) as [Hother _].
  split; [|exact Hempty].
  rewrite (Hother "z"); [reflexivity|].
  intros Hin. apply elem_of_cons in Hin as [Hin|Hin]; [discriminate|].
  apply list_elem_of_singleton in Hin. discriminate.
Defined.

(** Firestore rejects the append for site "a": the cycle completes and
    the cache holds the fetched weather under "a". *)
Lemma logObservation_failure_contained_witness :
  (fetchAll (fun _ => world_append_rejected) (Some [site_a]) sys0).2 = Returned tt
  /\ weatherData (fetchAll (fun _ => world_append_rejected) (Some [site_a]) sys0).1 !! "a"
     = Some (Some (weather_of sample_body)).
Proof.
  destruct (logObservation_failure_contained (fun _ => world_append_rejected) sys0
              0 site_a (weather_of sample_body)) as (_ & _ & _ & Hcycle).
  apply (Hcycle [site_a]).
  - intros j. unfold settles. split; [|split].
    + intros req. discriminate.
    + intros req res Hres. injection Hres as <-. discriminate.
    + intros path d. discriminate.
  - apply NoDup_singleton.
  - reflexivity.
  - reflexivity.
Defined.

(** The form accepts " Fargo West ", "nd", 46.877, -96.789 as the site
    Fargo West, ND, and rejects a latitude of 91. *)
Lemma handleSubmit_validates_witness :
  handleSubmit sample_trim sample_upper sample_parseFloat form_fargo
  = Some {| in_name := "Fargo West"; in_state := "ND";
            in_lat := lit 46877 3; in_lon := lit (-96789) 3 |}
  /\ handleSubmit sample_trim sample_upper sample_parseFloat form_out_of_range = None.
Proof.
  split.
  - apply handleSubmit_validates.
    repeat split; try (vm_compute; reflexivity); vm_compute; discriminate.
  - destruct (handleSubmit sample_trim sample_upper sample_parseFloat form_out_of_range)
      as [site|] eqn:Hsubmit; [|reflexivity].
    apply handleSubmit_validates in Hsubmit.
    destruct Hsubmit as (_ & _ & _ & _ & _ & Hle & _).
    vm_compute in Hle. discriminate.
Defined.

(** Removing site "a" leaves site "b" in the list and the observations
    logged for "a" in the database. *)
Lemma remove_keeps_observations_witness :
  sites (remove (Resolved tt) "a" store0).1 = [site_b]
  /\ db (remove (Resolved tt) "a" store0).1 !! doc "observations" "o1"
     = Some (ObservationDoc (observation world_up site_a (weather_of sample_body)))
  /\ (forall site, site ∈ sites (remove (Resolved tt) "a" store0).1 -> site_id site <> "a").
Proof.
  destruct (remove_keeps_observations (Resolved tt) "a" store0) as (Hobs & Hreturned & _).
  destruct (Hreturned eq_refl) as (Hgone & _ & _).
  split; [reflexivity|]. split; [|exact Hgone].
  rewrite Hobs. reflexivity.
Defined.

(** 225 degrees read "SW". *)
Lemma windDirLabel_in_bounds_witness :
  windDirLabel (Some (of_Z 225)) = Some "SW"
  /\ exists i label,
       (i < 16)%nat /\ dirs !! i = Some label
       /\ windDirLabel (Some (of_Z 225)) = Some label.
Proof.
  split; [vm_compute; reflexivity|].
  destruct (windDirLabel_in_bounds (of_Z 225)
              ltac:(vm_compute; reflexivity) ltac:(vm_compute; reflexivity)
              ltac:(vm_compute; reflexivity))
    as [(i & label & Hi & _ & Hlabel & Hwind) _].
  exists i, label. repeat split; assumption.
Defined.

(* ===================================================================== *)
(** * Site store: loading, adding and updating, properties *)
(* ===================================================================== *)

Lemma docs_in_elem (path : string) (d : firestore) (id : string) (x : Doc) :
  (id, x) ∈ docs_in path d <-> d !! doc path id = Some x.
Proof.
  unfold docs_in, doc. rewrite list_elem_of_omap. split.
  - intros ([[p i] y] & Hin & Hsome). simpl in Hsome.
    destruct (decide (p = path)) as [->|]; [|discriminate].
    injection Hsome as -> ->. apply elem_of_map_to_list in Hin. exact Hin.
  - intros Hlook. exists ((path, id), x). split.
    + apply elem_of_map_to_list. exact Hlook.
    + simpl. destruct (decide (path = path)); [reflexivity | contradiction].
Qed.

Lemma docs_in_NoDup (path : string) (d : firestore) : NoDup (docs_in path d).*1.
Proof.
  unfold docs_in. pose proof (NoDup_fst_map_to_list d) as Hnd.
  induction (map_to_list d) as [|[[p i] x] l IH]; simpl in *; [constructor|].
  apply NoDup_cons in Hnd as [Hout Hnd].
  destruct (decide (p = path)) as [->|]; simpl; [|apply IH; exact Hnd].
  apply NoDup_cons. split; [|apply IH; exact Hnd].
  intros Hin. apply list_elem_of_fmap in Hin as ([i' y] & Hi & Hin). simpl in Hi. subst i'.
  apply list_elem_of_omap in Hin as ([[p' j] z] & Hin & Hsome). simpl in Hsome.
  destruct (decide (p' = path)) as [->|]; [|discriminate].
  injection Hsome as -> ->. apply Hout.
  apply list_elem_of_fmap. exists ((path, i), y). split; [reflexivity | exact Hin].
Qed.

Lemma site_of_doc_elem (l : list (string * Doc)) site :
  site ∈ omap site_of_doc l
  <-> (site_id site,
       SiteDoc (site_name site) (site_state site) (site_lat site) (site_lon site)) ∈ l.
Proof.
  rewrite list_elem_of_omap. split.
  - intros ([i x] & Hin & Hsome). unfold site_of_doc in Hsome. simpl in Hsome.
    destruct x; [|discriminate]. injection Hsome as <-. exact Hin.
  - intros Hin. eexists. split; [exact Hin|]. destruct site; reflexivity.
Qed.

Lemma site_of_doc_ids (l : list (string * Doc)) :
  NoDup l.*1 -> NoDup (map site_id (omap site_of_doc l)).
Proof.
  induction l as [|[i x] l IH]; simpl; intros Hnd; [constructor|].
  apply NoDup_cons in Hnd as [Hout Hnd].
  unfold site_of_doc at 1. simpl. destruct x; simpl; [|apply IH; exact Hnd].
  apply NoDup_cons. split; [|apply IH; exact Hnd].
  intros Hin. apply list_elem_of_fmap in Hin as (site & Hid & Hin).
  apply site_of_doc_elem in Hin. apply Hout.
  apply list_elem_of_fmap. eexists. split; [|exact Hin]. exact Hid.
Qed.

Lemma loadSites_run ack s :
  loadSites ack s =
  match ack with
  | Resolved _ => (s, Returned (omap site_of_doc (docs_in "sites" (db s))))
  | Rejected e => (s, Threw e)
  | Pending => (s, Blocked)
  end.
Proof. destruct ack; reflexivity. Qed.

Lemma docs_mirror (d : firestore) :
  mirrors {| db := d; sites := omap site_of_doc (docs_in "sites" d) |}.
Proof.
  split; simpl.
  - apply site_of_doc_ids, docs_in_NoDup.
  - intros site. rewrite site_of_doc_elem. apply docs_in_elem.
Qed.

(** [loadSites] reads the sites collection and changes nothing.  When the
    read resolves it returns one site per document of the collection, in
    the order of the snapshot: the ids are distinct and a site is listed
    exactly when the collection stores its document.  A rejected read is
    thrown on as it is. *)
Theorem loadSites_lists_collection ack s :
  site_collection (db s) ->
  (loadSites ack s).1 = s
  /\ match ack with
     | Resolved _ =>
         exists l, (loadSites ack s).2 = Returned l
                   /\ map site_id l = (docs_in "sites" (db s)).*1
                   /\ mirrors {| db := db s; sites := l |}
     | Rejected e => (loadSites ack s).2 = Threw e
     | Pending => (loadSites ack s).2 = Blocked
     end.
Proof.
  intros Hsites. rewrite loadSites_run.
  destruct ack as [[]|e|]; cbn [fst snd]; (split; [reflexivity|]); try reflexivity.
  eexists. split; [reflexivity|]. split; [|apply docs_mirror].
  assert (Hall : forall id x, (id, x) ∈ docs_in "sites" (db s) ->
                              exists name state la lo, x = SiteDoc name state la lo).
  { intros id x Hin. apply docs_in_elem in Hin. exact (Hsites id x Hin). }
  induction (docs_in "sites" (db s)) as [|[id x] l IH]; [reflexivity|].
  destruct (Hall id x) as (name & state & la & lo & ->); [left|].
  simpl. f_equal. apply IH. intros id' x' Hin. apply (Hall id' x'). right. exact Hin.
Qed.

Lemma add_run ack site s :
  add ack site s =
  match ack with
  | Resolved id =>
      ({| db := <[doc "sites" id := site_doc site]> (db s);
          sites := sites s ++ [with_id id site] |}, Returned (with_id id site))
  | Rejected e => (s, Threw e)
  | Pending => (s, Blocked)
  end.
Proof. destruct ack; reflexivity. Qed.

Lemma update_run ack id data s :
  update ack id data s =
  match ack with
  | Resolved _ =>
      ({| db := alter (patch_doc data) (doc "sites" id) (db s);
          sites := (fun site => if decide (site_id site = id)
                                then patch_site data site else site) <$> sites s |},
       Returned tt)
  | Rejected e => (s, Threw e)
  | Pending => (s, Blocked)
  end.
Proof. destruct ack; reflexivity. Qed.

Lemma mirrors_listed s site :
  mirrors s -> site ∈ sites s -> db s !! doc "sites" (site_id site) = Some (doc_of_site site).
Proof. intros [_ Hm] Hin. apply Hm. exact Hin. Qed.

(** A listed site is the only one with its id. *)
Lemma mirrors_unlisted s id :
  mirrors s -> db s !! doc "sites" id = None -> id ∉ map site_id (sites s).
Proof.
  intros Hm Hnone Hin. apply list_elem_of_fmap in Hin as (site & -> & Hin).
  rewrite (mirrors_listed s site Hm Hin) in Hnone. discriminate.
Qed.

Lemma site_eta site id name state la lo :
  site_id site = id ->
  SiteDoc (site_name site) (site_state site) (site_lat site) (site_lon site)
  = SiteDoc name state la lo ->
  site = {| site_id := id; site_name := name; site_state := state;
            site_lat := la; site_lon := lo |}.
Proof. destruct site; simpl. intros -> Heq. injection Heq as -> -> -> ->. reflexivity. Qed.

Lemma patch_site_id data site : site_id (patch_site data site) = site_id site.
Proof. reflexivity. Qed.

Lemma patched_ids data id (l : list Site) :
  map site_id ((fun site => if decide (site_id site = id)
                            then patch_site data site else site) <$> l)
  = map site_id l.
Proof.
  induction l as [|site l IH]; [reflexivity|]. simpl. f_equal; [|exact IH].
  destruct (decide (site_id site = id)); reflexivity.
Qed.

Lemma filtered_ids_NoDup id (l : list Site) :
  NoDup (map site_id l) ->
  NoDup (map site_id (filter (fun site => site_id site ≠ id) l)).
Proof.
  induction l as [|site l IH]; simpl; intros Hnd; [constructor|].
  apply NoDup_cons in Hnd as [Hout Hnd]. rewrite filter_cons.
  destruct (decide (site_id site ≠ id)); [|apply IH; exact Hnd].
  simpl. apply NoDup_cons. split; [|apply IH; exact Hnd].
  intros Hin. apply Hout. apply list_elem_of_fmap in Hin as (site' & Hid & Hin).
  apply list_elem_of_filter in Hin as [_ Hin].
  apply list_elem_of_fmap. exists site'. split; assumption.
Qed.

(** [add] keeps the site list in step with the collection, given that the
    id the service generates is a new one: the new site goes to the end
    of the list and its document into the collection.  An add that did not
    go through changes nothing. *)
Theorem add_keeps_mirror ack site s :
  mirrors s ->
  (forall id, ack = Resolved id -> db s !! doc "sites" id = None) ->
  mirrors (add ack site s).1
  /\ (forall id, ack = Resolved id ->
        (add ack site s).2 = Returned (with_id id site)
        /\ sites (add ack site s).1 = sites s ++ [with_id id site]
        /\ db (add ack site s).1 !! doc "sites" id = Some (site_doc site))
  /\ ((forall id, ack <> Resolved id) -> (add ack site s).1 = s).
Proof.
  intros Hm Hfresh. rewrite add_run. destruct ack as [id|e|]; cbn [fst snd].
  - specialize (Hfresh id eq_refl).
    pose proof (mirrors_unlisted s id Hm Hfresh) as Hout.
    split; [|split].
    + split; cbn [db sites].
      * rewrite map_app. apply NoDup_app. split; [exact (proj1 Hm)|]. split.
        -- intros k Hk Hk'. simpl in Hk'. apply list_elem_of_singleton in Hk'.
           subst k. contradiction.
        -- simpl. apply NoDup_singleton.
      * intros site'. rewrite elem_of_app, list_elem_of_singleton.
        destruct (decide (site_id site' = id)) as [Hid|Hid].
        -- rewrite Hid, lookup_insert_eq. split.
           ++ intros [Hin| ->]; [|reflexivity].
              exfalso. apply Hout. apply list_elem_of_fmap.
              exists site'. split; [congruence | exact Hin].
           ++ intros Heq. right. apply (site_eta site' id); [exact Hid|].
              unfold site_doc in Heq. congruence.
        -- rewrite lookup_insert_ne by (unfold doc; congruence). split.
           ++ intros [Hin| ->]; [apply (proj2 Hm), Hin | contradiction].
           ++ intros Hlook. left. apply (proj2 Hm), Hlook.
    + intros id' Heq. injection Heq as <-. split; [reflexivity|].
      split; [reflexivity|]. cbn [db]. apply lookup_insert_eq.
    + intros Hno. destruct (Hno id eq_refl).
  - split; [exact Hm|]. split; [discriminate | reflexivity].
  - split; [exact Hm|]. split; [discriminate | reflexivity].
Qed.

Lemma patch_doc_site data site :
  patch_doc data (doc_of_site site) = doc_of_site (patch_site data site).
Proof. reflexivity. Qed.

Lemma field_set_default {A} (set : option A) (old : A) :
  field_set set old (default old set).
Proof. destruct set; reflexivity. Qed.

(** [update] sets the given fields of the site with the given id, in the
    stored document and in the listed site alike: once it has returned,
    the listed site is stored as it is listed, each field the update sets
    has the new value and each other field the old one; so the site list
    stays in step with the collection.  An update that did not go through
    leaves the site as it was. *)
Theorem update_keeps_mirror ack id data s :
  mirrors s ->
  mirrors (update ack id data s).1
  /\ (forall j site,
        sites s !! j = Some site -> site_id site = id ->
        (update ack id data s).2 = Returned tt ->
        exists site',
          sites (update ack id data s).1 !! j = Some site'
          /\ db (update ack id data s).1 !! doc "sites" id
             = Some (SiteDoc (site_name site') (site_state site')
                             (site_lat site') (site_lon site'))
          /\ site_id site' = id
          /\ field_set (set_name data) (site_name site) (site_name site')
          /\ field_set (set_state data) (site_state site) (site_state site')
          /\ field_set (set_lat data) (site_lat site) (site_lat site')
          /\ field_set (set_lon data) (site_lon site) (site_lon site'))
  /\ (forall j site,
        sites s !! j = Some site -> site_id site = id ->
        (update ack id data s).2 <> Returned tt ->
        sites (update ack id data s).1 !! j = Some site
        /\ db (update ack id data s).1 !! doc "sites" id
           = Some (SiteDoc (site_name site) (site_state site)
                           (site_lat site) (site_lon site))).
Proof.
  intros Hm.
  assert (Hlisted : forall j site, sites s !! j = Some site -> site_id site = id ->
            db s !! doc "sites" id = Some (doc_of_site site)).
  { intros j site Hj <-. apply (mirrors_listed s site Hm).
    exact (list_elem_of_lookup_2 _ _ _ Hj). }
  rewrite update_run. destruct ack as [[]|e|]; cbn [fst snd].
  2,3: split; [exact Hm|]; split; [discriminate|];
       intros j site Hj Hid _; split; [exact Hj | exact (Hlisted j site Hj Hid)].
  split; [|split; [|intros j site _ _ Hno; destruct (Hno eq_refl)]].
  - destruct Hm as [Hnd Hm]. split; cbn [db sites].
    + rewrite patched_ids. exact Hnd.
    + intros site. rewrite list_elem_of_fmap. split.
      * intros (site0 & -> & Hin). apply Hm in Hin.
        destruct (decide (site_id site0 = id)) as [Hid|Hid].
        -- rewrite patch_site_id, Hid, lookup_alter_eq, <- Hid, Hin. reflexivity.
        -- rewrite lookup_alter_ne by (unfold doc; congruence). exact Hin.
      * intros Hlook. destruct (decide (site_id site = id)) as [Hid|Hid].
        -- rewrite Hid, lookup_alter_eq in Hlook.
           destruct (db s !! doc "sites" id) as [x|] eqn:Hx; [|discriminate].
           destruct x as [name state la lo|o]; [|discriminate].
           exists {| site_id := id; site_name := name; site_state := state;
                     site_lat := la; site_lon := lo |}.
           split; [|apply Hm; exact Hx].
           cbn [site_id]. destruct (decide (id = id)); [|contradiction].
           apply (site_eta site id); [exact Hid|].
           simpl in Hlook. unfold patch_site.
           cbn [site_id site_name site_state site_lat site_lon].
           congruence.
        -- rewrite lookup_alter_ne in Hlook by (unfold doc; congruence).
           exists site. split; [|apply Hm; exact Hlook].
           destruct (decide (site_id site = id)); [contradiction | reflexivity].
  - intros j site Hj Hid _. exists (patch_site data site). cbn [db sites].
    split.
    { rewrite list_lookup_fmap, Hj. simpl.
      destruct (decide (site_id site = id)); [reflexivity | contradiction]. }
    split.
    { rewrite lookup_alter_eq, (Hlisted j site Hj Hid). reflexivity. }
    split; [exact Hid|].
    unfold patch_site. cbn [site_name site_state site_lat site_lon].
    repeat split; apply field_set_default.
Qed.

(** [update] changes nothing but the site with the given id: the list
    keeps its ids and their order, every other site stays as it is, and so
    does every other document (the observations among them).  An update
    that did not go through changes nothing at all. *)
Theorem update_frame ack id data s :
  map site_id (sites (update ack id data s).1) = map site_id (sites s)
  /\ (forall j site, sites s !! j = Some site -> site_id site <> id ->
                     sites (update ack id data s).1 !! j = Some site)
  /\ (forall ref, ref <> doc "sites" id ->
                  db (update ack id data s).1 !! ref = db s !! ref)
  /\ (forall oid, db (update ack id data s).1 !! doc "observations" oid
                  = db s !! doc "observations" oid)
  /\ ((update ack id data s).2 <> Returned tt -> (update ack id data s).1 = s).
Proof.
  rewrite update_run. destruct ack as [[]|e|]; cbn [fst snd db sites].
  - split; [apply patched_ids|]. split; [|split; [|split]].
    + intros j site Hj Hid. rewrite list_lookup_fmap, Hj. simpl.
      destruct (decide (site_id site = id)); [contradiction | reflexivity].
    + intros ref Href. apply lookup_alter_ne. congruence.
    + intros oid. apply lookup_alter_ne. unfold doc. discriminate.
    + intros Hno. contradiction.
  - repeat split; try reflexivity; intros; assumption.
  - repeat split; try reflexivity; intros; assumption.
Qed.

(** [remove] keeps the site list in step with the collection. *)
Theorem remove_keeps_mirror ack id s :
  mirrors s -> mirrors (remove ack id s).1.
Proof.
  intros Hm. rewrite remove_run. destruct ack as [[]|e|]; cbn [fst]; try exact Hm.
  destruct Hm as [Hnd Hm]. split; cbn [db sites].
  - apply filtered_ids_NoDup. exact Hnd.
  - intros site. rewrite list_elem_of_filter.
    destruct (decide (site_id site = id)) as [Hid|Hid].
    + rewrite Hid, lookup_delete_eq. split; [intros [Hne _]; contradiction | discriminate].
    + rewrite lookup_delete_ne by (unfold doc; congruence). rewrite <- Hm. tauto.
Qed.

(** Adding a site and removing it again gives back the store as it was:
    the same list in the same order and the same documents. *)
Theorem add_then_remove site id s :
  mirrors s ->
  db s !! doc "sites" id = None ->
  (remove (Resolved tt) id (add (Resolved id) site s).1).1 = s.
Proof.
  intros Hm Hfresh. rewrite add_run, remove_run. cbn [fst db sites].
  pose proof (mirrors_unlisted s id Hm Hfresh) as Hout.
  destruct s as [d l]. cbn [db sites] in *. f_equal.
  - apply delete_insert_id. exact Hfresh.
  - rewrite filter_app, filter_cons, filter_nil. cbn [with_id site_id].
    destruct (decide (id ≠ id)); [contradiction|]. rewrite app_nil_r.
    clear Hm Hfresh. induction l as [|site0 l IH]; [reflexivity|].
    simpl in Hout. apply not_elem_of_cons in Hout as [Hne Hout].
    rewrite filter_cons.
    destruct (decide (site_id site0 ≠ id)) as [|Heq]; [|destruct Heq; congruence].
    f_equal. apply IH. exact Hout.
Qed.

(** A reload brings nothing new: while the list mirrors the collection,
    [loadSites] returns the listed sites, possibly in another order. *)
Theorem reload_agrees s :
  mirrors s ->
  exists l, loadSites (Resolved tt) s = (s, Returned l) /\ l ≡ₚ sites s.
Proof.
  intros [Hnd Hm]. eexists. split; [reflexivity|].
  destruct (docs_mirror (db s)) as [Hnd' Hm']. cbn [db sites] in *.
  apply NoDup_Permutation.
  - exact (NoDup_fmap_1 site_id _ Hnd').
  - exact (NoDup_fmap_1 site_id _ Hnd).
  - intros site. rewrite Hm, Hm'. reflexivity.
Qed.

Lemma patch_then_doc d1 d2 x :
  patch_doc d2 (patch_doc d1 x) = patch_doc (patch_then d1 d2) x.
Proof.
  destruct x as [name state la lo|o]; [|reflexivity].
  destruct d1 as [[?|] [?|] [?|] [?|]], d2 as [[?|] [?|] [?|] [?|]]; reflexivity.
Qed.

Lemma patch_then_site d1 d2 site :
  patch_site d2 (patch_site d1 site) = patch_site (patch_then d1 d2) site.
Proof.
  destruct d1 as [[?|] [?|] [?|] [?|]], d2 as [[?|] [?|] [?|] [?|]]; reflexivity.
Qed.

(** Two updates of a site amount to one update with the fields of both,
    the later one winning where both set a field; so repeating an update
    changes nothing more. *)
Theorem update_twice id d1 d2 s :
  (update (Resolved tt) id d2 (update (Resolved tt) id d1 s).1).1
  = (update (Resolved tt) id (patch_then d1 d2) s).1
  /\ (update (Resolved tt) id d1 (update (Resolved tt) id d1 s).1).1
     = (update (Resolved tt) id d1 s).1.
Proof.
  assert (Hcomp : forall d d',
    (update (Resolved tt) id d' (update (Resolved tt) id d s).1).1
    = (update (Resolved tt) id (patch_then d d') s).1).
  { intros d d'. rewrite !update_run. cbn [fst db sites]. f_equal.
    - apply map_eq. intros ref.
      destruct (decide (doc "sites" id = ref)) as [<-|Href].
      + rewrite !lookup_alter_eq.
        destruct (db s !! doc "sites" id) as [x|]; [|reflexivity].
        simpl. rewrite patch_then_doc. reflexivity.
      + rewrite !lookup_alter_ne by exact Href. reflexivity.
    - rewrite <- list_fmap_compose. apply list_fmap_ext. intros j site _. simpl.
      destruct (decide (site_id site = id)) as [Hid|Hid].
      + rewrite patch_site_id. destruct (decide (site_id site = id)); [|contradiction].
        apply patch_then_site.
      + destruct (decide (site_id site = id)); [contradiction | reflexivity]. }
  split; [apply Hcomp|]. rewrite Hcomp. f_equal.
  destruct d1 as [[?|] [?|] [?|] [?|]]; reflexivity.
Qed.

Lemma load_run ack h :
  load ack h =
  match ack with
  | Resolved _ =>
      ({| store := {| db := db (store h);
                      sites := omap site_of_doc (docs_in "sites" (db (store h))) |};
          loading := false; error := None; console := console h |}, Returned tt)
  | Rejected e =>
      ({| store := store h; loading := false;
          error := Some "Failed to load sites from Firestore. Check your Firebase config.";
          console := console h ++ [e] |}, Returned tt)
  | Pending =>
      ({| store := store h; loading := true; error := None; console := console h |},
       Blocked)
  end.
Proof. destruct ack; reflexivity. Qed.

(** [load] never throws and never writes to the database.  Once the read
    has settled it returns with [loading] false: after a successful read
    the list mirrors the collection and an earlier error is cleared; after
    a failed one the list is the one from before, the error message is
    set and the exception is on the console.  While the read is pending
    [loading] stays true. *)
Theorem load_settles ack h :
  (forall e, (load ack h).2 <> Threw e)
  /\ db (store (load ack h).1) = db (store h)
  /\ match ack with
     | Resolved _ =>
         (load ack h).2 = Returned tt
         /\ loading (load ack h).1 = false
         /\ error (load ack h).1 = None
         /\ console (load ack h).1 = console h
         /\ mirrors (store (load ack h).1)
     | Rejected e =>
         (load ack h).2 = Returned tt
         /\ loading (load ack h).1 = false
         /\ error (load ack h).1
            = Some "Failed to load sites from Firestore. Check your Firebase config."
         /\ console (load ack h).1 = console h ++ [e]
         /\ sites (store (load ack h).1) = sites (store h)
     | Pending =>
         (load ack h).2 = Blocked
         /\ loading (load ack h).1 = true
         /\ sites (store (load ack h).1) = sites (store h)
     end.
Proof.
  rewrite load_run. destruct ack as [[]|e|]; cbn [fst snd store db sites loading error console].
  - split; [discriminate|]. split; [reflexivity|].
    repeat (split; [reflexivity|]). apply docs_mirror.
  - split; [discriminate|]. repeat (split; [reflexivity|]). reflexivity.
  - split; [discriminate|]. repeat (split; [reflexivity|]). reflexivity.
Qed.

Lemma filter_unlisted id (l : list Site) :
  id ∉ map site_id l -> filter (fun site => site_id site ≠ id) l = l.
Proof.
  induction l as [|site l IH]; intros Hout; [reflexivity|].
  simpl in Hout. apply not_elem_of_cons in Hout as [Hne Hout].
  rewrite filter_cons.
  destruct (decide (site_id site ≠ id)) as [|Heq]; [|destruct Heq; congruence].
  f_equal. apply IH. exact Hout.
Qed.

(** An id that is not in the collection: updating or removing it changes
    neither the list nor the database, however the service answers. *)
Theorem unknown_id_is_noop ack id data s :
  mirrors s ->
  db s !! doc "sites" id = None ->
  (update ack id data s).1 = s /\ (remove ack id s).1 = s.
Proof.
  intros Hm Hnone. pose proof (mirrors_unlisted s id Hm Hnone) as Hout.
  rewrite update_run, remove_run. destruct s as [d l]. cbn [db sites] in *.
  destruct ack as [[]|e|]; cbn [fst]; split; try reflexivity; f_equal.
  - apply alter_id'. exact Hnone.
  - rewrite <- (list_fmap_id l) at 2. apply list_fmap_ext. intros j site Hj.
    destruct (decide (site_id site = id)) as [Hid|]; [|reflexivity].
    exfalso. apply Hout. apply list_elem_of_fmap. exists site.
    split; [congruence|]. exact (list_elem_of_lookup_2 _ _ _ Hj).
  - apply delete_id. exact Hnone.
  - apply filter_unlisted. exact Hout.
Qed.

(* ===================================================================== *)
(** * Sync loop: what a cycle appends, reports and leaves behind *)
(* ===================================================================== *)

Lemma appended_app evs1 evs2 : appended (evs1 ++ evs2) = appended evs1 ++ appended evs2.
Proof. apply omap_app. Qed.

Lemma reported_app evs1 evs2 : reported (evs1 ++ evs2) = reported evs1 ++ reported evs2.
Proof. apply omap_app. Qed.

Lemma emitted_inj s evs1 evs2 : emitted s evs1 = emitted s evs2 -> evs1 = evs2.
Proof.
  unfold emitted. intros Heq. injection Heq as Heq. exact (app_inv_head _ _ _ Heq).
Qed.

(** A loop that returns has appended one observation per site whose fetch
    returned and reported one message per failure, in list order. *)
Lemma fetch_loop_returned timeline n rest :
  forall i results s s' r,
    fetch_loop timeline n i rest results s = (s', Returned r) ->
    exists evs,
      s' = emitted s evs
      /\ r = cycle_results timeline i rest results
      /\ appended evs
         = omap (fun p => site_observation timeline p.1 p.2) (indexed i rest)
      /\ reported evs
         = omap (fun p => site_report timeline p.1 p.2) (indexed i rest).
Proof.
  induction rest as [|site rest IH]; intros i results s s' r Hrun.
  - injection Hrun as <- <-. exists []. rewrite emitted_nil. repeat split.
  - rewrite fetch_loop_cons in Hrun. cbn zeta in Hrun.
    cbn [indexed cycle_results omap list_omap fst snd].
    unfold site_observation at 1, site_report at 1, entry.
    destruct (fetch_result (timeline i) site) as [weather|e|]; [| |discriminate].
    + destruct (firestore_add _ _ _) as [x|e|]; [| |discriminate];
        rewrite continue_run, !emitted_emitted in Hrun;
        apply IH in Hrun as (evs & -> & -> & Happ & Hrep);
        rewrite emitted_emitted; eexists; (split; [reflexivity|]);
        (split; [reflexivity|]);
        rewrite !appended_app, !reported_app, Happ, Hrep;
        destruct (Z.of_nat i <? n - 1); split; reflexivity.
    + rewrite continue_run, !emitted_emitted in Hrun.
      apply IH in Hrun as (evs & -> & -> & Happ & Hrep).
      rewrite emitted_emitted; eexists; (split; [reflexivity|]).
      split; [reflexivity|].
      rewrite !appended_app, !reported_app, Happ, Hrep.
      destruct (Z.of_nat i <? n - 1); split; reflexivity.
Qed.

(** The state in which the loop of a cycle starts. *)
Lemma fetchAll_run timeline sites s :
  sites <> [] ->
  fetchAll timeline (Some sites) s =
  match fetch_loop timeline (Z.of_nat (length sites)) 0 sites ∅
          {| trace := trace s; weatherData := weatherData s;
             fetching := true; lastUpdated := lastUpdated s |} with
  | (s1, Returned results) =>
      ({| trace := trace s1; weatherData := spread (weatherData s1) results;
          fetching := false; lastUpdated := Some (now (timeline (length sites))) |},
       Returned tt)
  | (s1, Threw e) => (s1, Threw e)
  | (s1, Blocked) => (s1, Blocked)
  end.
Proof.
  intros Hne. rewrite (fetchAll_nonempty _ _ Hne).
  unfold bind at 1. unfold setFetching at 1, modify. unfold bind at 1.
  destruct (fetch_loop _ _ _ _ _ _) as [s1 [results|e|]]; reflexivity.
Qed.

Lemma fetchAll_returned timeline sites s :
  (fetchAll timeline (Some sites) s).2 = Returned tt ->
  exists evs,
    trace (fetchAll timeline (Some sites) s).1 = trace s ++ evs
    /\ appended evs
       = omap (fun p => site_observation timeline p.1 p.2) (indexed 0 sites)
    /\ reported evs
       = omap (fun p => site_report timeline p.1 p.2) (indexed 0 sites).
Proof.
  destruct (decide (sites = [])) as [->|Hne].
  - intros _. exists []. simpl. rewrite app_nil_r. repeat split.
  - rewrite (fetchAll_run _ _ _ Hne).
    match goal with |- context [fetch_loop _ ?n _ _ ?r ?s'] =>
      pose proof (fetch_loop_returned timeline n sites 0%nat r s') as Hloop;
      destruct (fetch_loop timeline n 0%nat sites r s') as [s1 [results|e|]] end;
      cbn [fst snd]; try discriminate.
    intros _. destruct (Hloop s1 results eq_refl) as (evs & -> & _ & Happ & Hrep).
    exists evs. split; [reflexivity|]. split; assumption.
Qed.

Lemma indexed_elem (l : list Site) :
  forall k j site, (j, site) ∈ indexed k l -> exists i, j = (k + i)%nat /\ l !! i = Some site.
Proof.
  induction l as [|site0 l IH]; intros k j site Hin; [inversion Hin|].
  cbn [indexed] in Hin. apply elem_of_cons in Hin as [Heq|Hin].
  - injection Heq as -> ->. exists 0%nat. split; [lia | reflexivity].
  - apply IH in Hin as (i & -> & Hi). exists (S i). split; [lia | exact Hi].
Qed.

Lemma indexed_length (l : list Site) : forall k, length (indexed k l) = length l.
Proof. induction l as [|site l IH]; intros k; simpl; [|rewrite IH]; reflexivity. Qed.

Lemma omap_length_le {A B} (f : A -> option B) (l : list A) :
  (length (omap f l) <= length l)%nat.
Proof.
  induction l as [|x l IH]; [reflexivity|].
  change (omap f (x :: l)) with (match f x with Some y => y :: omap f l | None => omap f l end).
  destruct (f x); simpl; lia.
Qed.

(** A cycle that returns has handed to [addDoc] exactly one observation
    for each site whose fetch returned, in list order, and none for a site
    whose fetch failed: each carries the id of its site, the weather its
    fetch returned and the time of its turn. *)
Theorem cycle_appends_fetched_sites timeline sites s :
  (fetchAll timeline (Some sites) s).2 = Returned tt ->
  exists evs,
    trace (fetchAll timeline (Some sites) s).1 = trace s ++ evs
    /\ appended evs
       = omap (fun p => site_observation timeline p.1 p.2) (indexed 0 sites)
    /\ (length (appended evs) <= length sites)%nat
    /\ (forall o, o ∈ appended evs ->
          exists i site weather,
            sites !! i = Some site
            /\ fetch_result (timeline i) site = Returned weather
            /\ o = {| obs_siteId := site_id site; obs_weather := weather;
                      obs_timestamp := now (timeline i) |}).
Proof.
  intros Hret. destruct (fetchAll_returned timeline sites s Hret) as (evs & Htrace & Happ & _).
  exists evs. split; [exact Htrace|]. split; [exact Happ|]. rewrite Happ. split.
  - rewrite <- (indexed_length sites 0). apply omap_length_le.
  - intros o Hin. apply list_elem_of_omap in Hin as ([j site] & Hin & Hobs).
    apply indexed_elem in Hin as (i & -> & Hi). cbn [fst snd] in Hobs.
    unfold site_observation in Hobs. simpl in Hobs.
    destruct (fetch_result (timeline i) site) as [weather| |] eqn:Hres; try discriminate.
    injection Hobs as <-. exists i, site, weather. repeat split; assumption.
Qed.

(** A cycle that returns has written to the console exactly one message
    per failure, in list order: "Failed to fetch weather for <name>:" for
    a fetch that threw, "Failed to log observation for <id>:" for an
    append that was rejected; when no fetch throws and no append is
    rejected the console stays silent. *)
Theorem cycle_reports_failures timeline sites s :
  (fetchAll timeline (Some sites) s).2 = Returned tt ->
  exists evs,
    trace (fetchAll timeline (Some sites) s).1 = trace s ++ evs
    /\ reported evs
       = omap (fun p => site_report timeline p.1 p.2) (indexed 0 sites)
    /\ ((forall i site, sites !! i = Some site -> site_report timeline i site = None) ->
        reported evs = []).
Proof.
  intros Hret. destruct (fetchAll_returned timeline sites s Hret) as (evs & Htrace & _ & Hrep).
  exists evs. split; [exact Htrace|]. split; [exact Hrep|].
  intros Hquiet. rewrite Hrep.
  destruct (omap _ (indexed 0 sites)) as [|msg l] eqn:Hl; [reflexivity|exfalso].
  assert (Hin : msg ∈ omap (fun p => site_report timeline p.1 p.2) (indexed 0 sites))
    by (rewrite Hl; left).
  apply list_elem_of_omap in Hin as ([j site] & Hin & Hmsg).
  apply indexed_elem in Hin as (i & -> & Hi). cbn [fst snd] in Hmsg.
  simpl in Hmsg. rewrite (Hquiet i site Hi) in Hmsg. discriminate.
Qed.

(** Whatever the world does, a cycle never throws: every failure of a
    fetch or of an append is caught inside it. *)
Theorem fetchAll_never_throws timeline sitesToFetch s e :
  (fetchAll timeline sitesToFetch s).2 <> Threw e.
Proof.
  destruct sitesToFetch as [sites|]; [|discriminate].
  destruct (decide (sites = [])) as [->|Hne]; [discriminate|].
  rewrite (fetchAll_run _ _ _ Hne).
  match goal with |- context [fetch_loop _ ?n _ _ ?r ?s'] =>
    destruct (fetch_loop_prefix timeline n sites 0%nat r s') as (evs & _ & _ & Hthrow);
    destruct (fetch_loop timeline n 0%nat sites r s') as [s1 [results|e'|]] end;
    cbn [snd] in *; try discriminate.
  destruct (Hthrow e' eq_refl).
Qed.

(** The merge is all or nothing: a cycle that does not return (a promise
    it awaits never settles) leaves the cache and [lastUpdated] as they
    were, and [fetching] stays true. *)
Theorem unfinished_cycle_keeps_cache timeline sitesToFetch s :
  (fetchAll timeline sitesToFetch s).2 <> Returned tt ->
  weatherData (fetchAll timeline sitesToFetch s).1 = weatherData s
  /\ lastUpdated (fetchAll timeline sitesToFetch s).1 = lastUpdated s
  /\ fetching (fetchAll timeline sitesToFetch s).1 = true.
Proof.
  destruct sitesToFetch as [sites|]; [|intros Hno; destruct (Hno eq_refl)].
  destruct (decide (sites = [])) as [->|Hne]; [intros Hno; destruct (Hno eq_refl)|].
  rewrite (fetchAll_run _ _ _ Hne).
  match goal with |- context [fetch_loop _ ?n _ _ ?r ?s'] =>
    destruct (fetch_loop_prefix timeline n sites 0%nat r s') as (evs & Hst & _ & _);
    destruct (fetch_loop timeline n 0%nat sites r s') as [s1 [results|e'|]] end;
    cbn [fst snd] in *; intros Hno; try (destruct (Hno eq_refl));
    subst s1; repeat split.
Qed.

Lemma cycle_results_app timeline l1 :
  forall i l2 results,
    cycle_results timeline i (l1 ++ l2) results
    = cycle_results timeline (i + length l1) l2 (cycle_results timeline i l1 results).
Proof.
  induction l1 as [|site l1 IH]; intros i l2 results; simpl.
  - rewrite Nat.add_0_r. reflexivity.
  - rewrite IH. f_equal. lia.
Qed.

(** When a list names an id more than once, every one of these sites is
    fetched, and the cache keeps what the cycle recorded for the last of
    them: its weather, or null when its fetch failed, whatever the earlier
    fetches for that id returned. *)
Theorem last_site_of_an_id_wins timeline sites s l1 site l2 :
  (forall j, settles (timeline j)) ->
  sites = l1 ++ site :: l2 ->
  site_id site ∉ map site_id l2 ->
  weatherData (fetchAll timeline (Some sites) s).1 !! site_id site
  = Some (entry (timeline (length l1)) site)
  /\ (forall evs, trace (fetchAll timeline (Some sites) s).1 = trace s ++ evs ->
                  fetches evs = map site_request sites).
Proof.
  intros Hsettle Hsites Hout.
  assert (Hne : sites <> []) by (rewrite Hsites; destruct l1; discriminate).
  destruct (fetchAll_settled timeline sites s Hne Hsettle) as (evs & -> & Hnet).
  cbn [fst completed weatherData trace]. split.
  - unfold spread. apply lookup_union_Some_l.
    rewrite Hsites, cycle_results_app. cbn [cycle_results].
    rewrite cycle_results_other by exact Hout. apply lookup_insert_eq.
  - intros evs' Heq. apply app_inv_head in Heq. subst evs'.
    rewrite <- fetches_net, Hnet. apply fetches_schedule.
Qed.

(* ===================================================================== *)
(** * Precipitation classes and the site row: properties *)
(* ===================================================================== *)

Lemma heavy_value : heavy PRECIP_THRESHOLDS = S754_finite false 4503599627370496 (-53).
Proof. vm_compute. reflexivity. Qed.

Lemma moderate_value : moderate PRECIP_THRESHOLDS = S754_finite false 4503599627370496 (-54).
Proof. vm_compute. reflexivity. Qed.

Lemma light_value : light PRECIP_THRESHOLDS = S754_zero false.
Proof. vm_compute. reflexivity. Qed.

(** [<=] on numbers is transitive. *)
Lemma SFleb_trans x y z :
  SFleb x y = true -> SFleb y z = true -> SFleb x z = true.
Proof.
  unfold SFleb, SFcompare.
  destruct x as [sx|sx| |sx mx ex], y as [sy|sy| |sy my ey], z as [sz|sz| |sz mz ez];
    try discriminate; try reflexivity;
    repeat match goal with s : bool |- _ => destruct s end;
    try discriminate; try reflexivity;
    intros Hxy Hyz; compare_cases; simpl in *;
    try discriminate; try reflexivity; try lia.
Qed.

Lemma SFltb_leb_trans x y z :
  SFltb x y = true -> SFleb y z = true -> SFltb x z = true.
Proof.
  unfold SFleb, SFltb, SFcompare.
  destruct x as [sx|sx| |sx mx ex], y as [sy|sy| |sy my ey], z as [sz|sz| |sz mz ez];
    try discriminate; try reflexivity;
    repeat match goal with s : bool |- _ => destruct s end;
    try discriminate; try reflexivity;
    intros Hxy Hyz; compare_cases; simpl in *;
    try discriminate; try reflexivity; try lia.
Qed.

Lemma SFltb_SFleb x y : SFltb x y = true -> SFleb x y = true.
Proof.
  unfold SFltb, SFleb. destruct (SFcompare x y) as [[| |]|]; congruence.
Qed.

Lemma above_threshold_positive c p :
  SFltb (of_Z 0) c = true -> js_ge p c = true -> js_gt p (of_Z 0) = true.
Proof. unfold js_ge, js_gt. apply SFltb_leb_trans. Qed.

Lemma getPrecipClass_positive p :
  getPrecipClass p <> "" <-> js_gt p (of_Z 0) = true.
Proof.
  unfold getPrecipClass.
  destruct (js_ge p (heavy PRECIP_THRESHOLDS)) eqn:Hheavy.
  - split; [intros _|discriminate].
    apply (above_threshold_positive (heavy PRECIP_THRESHOLDS)); [reflexivity | exact Hheavy].
  - destruct (js_ge p (moderate PRECIP_THRESHOLDS)) eqn:Hmoderate.
    + split; [intros _|discriminate].
      apply (above_threshold_positive (moderate PRECIP_THRESHOLDS));
        [reflexivity | exact Hmoderate].
    + change (light PRECIP_THRESHOLDS) with (of_Z 0).
      destruct (js_gt p (of_Z 0)); split; congruence.
Qed.

(** In a row (and on the detail page) the class, the colour and the bar
    agree, whatever the cache holds for the site: the row has a class
    exactly when the bar is drawn, that is when the precipitation is a
    number above 0; a drawn bar is in one of the three blues, and a row
    without a class gets the grey.  A site with no record yet, or with a
    null one after a failed fetch, has neither class nor bar. *)
Theorem row_class_iff_bar (weather : option (option Weather)) :
  (row_cls (row_precip weather) <> "" <-> row_bar (row_precip weather) = true)
  /\ (row_bar (row_precip weather) = true ->
      getPrecipColor (row_cls (row_precip weather)) ∈ blues)
  /\ (row_cls (row_precip weather) = "" ->
      getPrecipColor (row_cls (row_precip weather)) = "#6b7280")
  /\ (row_bar (row_precip weather) = false -> barWidth (row_precip weather) = of_Z 0)
  /\ (weather = None \/ weather = Some None ->
      row_cls (row_precip weather) = "" /\ row_bar (row_precip weather) = false).
Proof.
  set (precip := row_precip weather).
  assert (Hiff : row_cls precip <> "" <-> row_bar precip = true).
  { destruct precip as [p|]; simpl; [apply getPrecipClass_positive|].
    split; [congruence | discriminate]. }
  split; [exact Hiff|]. split; [|split; [|split]].
  - intros Hbar. apply Hiff in Hbar. destruct precip as [p|]; simpl in *; [|congruence].
    unfold getPrecipClass in *.
    destruct (js_ge p (heavy PRECIP_THRESHOLDS)); [left|].
    destruct (js_ge p (moderate PRECIP_THRESHOLDS)); [right; left|].
    destruct (js_gt p (light PRECIP_THRESHOLDS)); [right; right; left | congruence].
  - intros ->. reflexivity.
  - intros Hbar. unfold barWidth. rewrite Hbar. reflexivity.
  - subst precip. intros [-> | ->]; split; reflexivity.
Qed.

(** More rain never gets a lower class: the classes none, has-rain,
    moderate, heavy follow the order of the amounts. *)
Theorem getPrecipClass_monotone p q :
  js_le p q = true ->
  (class_rank (getPrecipClass p) <= class_rank (getPrecipClass q))%nat.
Proof.
  unfold js_le. intros Hpq.
  assert (Hge : forall c, js_ge p c = true -> js_ge q c = true).
  { intros c Hc. unfold js_ge in *. exact (SFleb_trans c p q Hc Hpq). }
  assert (Hgt : forall c, js_gt p c = true -> js_gt q c = true).
  { intros c Hc. unfold js_gt in *. exact (SFltb_leb_trans c p q Hc Hpq). }
  unfold getPrecipClass.
  destruct (js_ge p (heavy PRECIP_THRESHOLDS)) eqn:Hp1.
  { rewrite (Hge _ Hp1). reflexivity. }
  destruct (js_ge p (moderate PRECIP_THRESHOLDS)) eqn:Hp2.
  { rewrite (Hge _ Hp2). destruct (js_ge q (heavy PRECIP_THRESHOLDS)); vm_compute; lia. }
  destruct (js_gt p (light PRECIP_THRESHOLDS)) eqn:Hp3.
  { rewrite (Hgt _ Hp3).
    destruct (js_ge q (heavy PRECIP_THRESHOLDS)), (js_ge q (moderate PRECIP_THRESHOLDS));
      vm_compute; lia. }
  change (class_rank "") with 0%nat. lia.
Qed.

(* ===================================================================== *)
(** * Numbers: the sign of a rounded result *)
(* ===================================================================== *)

(** Rounding keeps the sign: the result for a non-negative mantissa is a
    zero, a finite number or an infinity with the sign it was given. *)
Lemma binary_round_aux_signed s m e l :
  0 <= m -> signed s (binary_round_aux prec emax s m e l).
Proof.
  intros Hm. unfold binary_round_aux, shr_fexp.
  destruct (shr (shr_record_of_loc m l) e (fexp prec emax (Zdigits2 m + e) - e))
    as [mrs' e'] eqn:Hshr1.
  pose proof (shr_bound _ _ _ _ _ Hshr1 ltac:(rewrite shr_record_of_loc_m; exact Hm))
    as (_ & Hm' & _).
  pose proof (round_nearest_even_bound (shr_m mrs') (loc_of_shr_record mrs')) as [Hr _].
  set (r := round_nearest_even (shr_m mrs') (loc_of_shr_record mrs')) in *.
  destruct (shr (shr_record_of_loc r loc_Exact) e' (fexp prec emax (Zdigits2 r + e') - e'))
    as [mrs'' e''] eqn:Hshr2.
  pose proof (shr_bound _ _ _ _ _ Hshr2 ltac:(rewrite shr_record_of_loc_m; lia))
    as (_ & Hm'' & _).
  destruct (shr_m mrs'') as [|p|p]; [reflexivity| |lia].
  destruct (e'' <=? emax - prec); reflexivity.
Qed.

Lemma binary_round_signed s m e : signed s (binary_round prec emax s m e).
Proof.
  unfold binary_round. destruct (shl_align _ _ _) as [mz ez].
  apply binary_round_aux_signed. lia.
Qed.

Lemma div_core_nonneg m1 e1 m2 e2 mz ez lz :
  SFdiv_core_binary prec emax (Zpos m1) e1 (Zpos m2) e2 = (mz, ez, lz) -> 0 <= mz.
Proof.
  unfold SFdiv_core_binary.
  set (m' := match _ with Zpos _ => _ | Z0 => _ | Zneg _ => _ end).
  assert (Hm' : 0 <= m').
  { subst m'. destruct (_ - _ - _) as [|k|k]; [lia| |lia]. apply Z.shiftl_nonneg. lia. }
  clearbody m'.
  pose proof (Z.div_pos m' (Zpos m2) Hm' ltac:(lia)) as Hq.
  unfold Z.div in Hq. destruct (Z.div_eucl m' (Zpos m2)) as [q r].
  intros Heq. injection Heq as <- _ _. exact Hq.
Qed.

(** Multiplying or dividing by a finite number other than zero gives the
    sign of the operands, never NaN. *)
Lemma js_mul_signed s x sy my ey :
  signed s x -> signed (xorb s sy) (js_mul x (S754_finite sy my ey)).
Proof.
  destruct x as [sx|sx| |sx mx ex]; simpl; intros Hs; subst; try reflexivity;
    [contradiction|].
  apply binary_round_aux_signed. lia.
Qed.

Lemma js_div_signed s x sy my ey :
  signed s x -> signed (xorb s sy) (js_div x (S754_finite sy my ey)).
Proof.
  destruct x as [sx|sx| |sx mx ex]; simpl; intros Hs; subst; try reflexivity;
    [contradiction|].
  destruct (SFdiv_core_binary prec emax (Zpos mx) ex (Zpos my) ey) as [[mz ez] lz] eqn:Hdiv.
  apply binary_round_aux_signed. exact (div_core_nonneg _ _ _ _ _ _ _ Hdiv).
Qed.

(** The sum of two numbers that are not below zero is not below zero. *)
Lemma js_add_signed x y :
  signed false x -> signed false y -> signed false (js_add x y).
Proof.
  destruct x as [sx|sx| |sx mx ex], y as [sy|sy| |sy my ey]; simpl;
    intros Hx Hy; subst; try reflexivity; try contradiction.
  unfold binary_normalize. simpl.
  apply binary_round_signed.
Qed.

Lemma of_Z_signed n : 0 <= n -> signed false (of_Z n).
Proof.
  intros Hn. unfold of_Z, binary_normalize. destruct n as [|p|p]; [reflexivity| |lia].
  apply binary_round_signed.
Qed.

Lemma Math_round_signed x : signed false x -> signed false (Math_round x).
Proof.
  destruct x as [sx|sx| |sx mx ex]; simpl; intros Hs; subst; try reflexivity;
    [contradiction|].
  destruct (Z.leb_spec 0 ex) as [|Hex]; [reflexivity|].
  change (cond_Zopp false (Zpos mx)) with (Zpos mx).
  set (n := (2 * Zpos mx + 2 ^ (- ex)) / 2 ^ (1 - ex)).
  assert (Hn : 0 <= n).
  { subst n. apply Z.div_pos; [|apply Z.pow_pos_nonneg; lia].
    pose proof (Z.pow_nonneg 2 (- ex)). lia. }
  destruct (n =? 0); [exact eq_refl|]. apply of_Z_signed. exact Hn.
Qed.

Lemma of_Z_1 : of_Z 1 = S754_finite false 4503599627370496 (-52).
Proof. vm_compute. reflexivity. Qed.

Lemma of_Z_100 : of_Z 100 = S754_finite false 7036874417766400 (-46).
Proof. vm_compute. reflexivity. Qed.

Lemma MM_TO_INCHES_value : MM_TO_INCHES = S754_finite false 5673829366065253 (-57).
Proof. vm_compute. reflexivity. Qed.

Lemma signed_above_zero x : signed false x -> js_le (of_Z 0) x = true.
Proof. destruct x as [s|s| |s m e]; simpl; intros Hs; subst; [..|contradiction|]; reflexivity. Qed.

Lemma above_zero_signed x : js_gt x (of_Z 0) = true -> signed false x.
Proof. destruct x as [s|[|]| |[|] m e]; simpl; intros Hs; try discriminate; reflexivity. Qed.

Lemma Math_min_bounds x c :
  signed false x -> signed false c ->
  js_le (of_Z 0) (Math_min x c) = true /\ js_le (Math_min x c) c = true.
Proof.
  intros Hx Hc. unfold Math_min.
  assert (Hcc : js_le c c = true).
  { destruct c as [s|s| |s m e]; simpl in Hc; subst; try reflexivity; [contradiction|].
    unfold js_le, SFleb, SFcompare. rewrite Z.compare_refl.
    change (Pos.compare_cont Eq m m) with (Pos.compare m m). rewrite Pos.compare_refl.
    reflexivity. }
  replace (isNaN x) with false by (destruct x; simpl in *; tauto).
  replace (isNaN c) with false by (destruct c; simpl in *; tauto).
  cbn [orb].
  destruct (SFltb x c) eqn:Hlt.
  { split; [apply signed_above_zero; exact Hx | apply SFltb_SFleb; exact Hlt]. }
  destruct (SFltb c x).
  { split; [apply signed_above_zero; exact Hc | exact Hcc]. }
  destruct x as [[|]| | |]; simpl in Hx; try discriminate;
    (split; [apply signed_above_zero; exact Hc | exact Hcc]).
Qed.

(** The width of the bar is a percentage: whatever the precipitation is
    (null, NaN, a negative amount, an infinity), [barWidth] is a number
    from 0 to 100, never NaN. *)
Theorem barWidth_in_range (precip : option number) :
  js_le (of_Z 0) (barWidth precip) = true
  /\ js_le (barWidth precip) (of_Z 100) = true.
Proof.
  unfold barWidth. destruct precip as [p|]; cbn [row_bar];
    [|split; reflexivity].
  destruct (js_gt p (of_Z 0)) eqn:Hpos; [|split; reflexivity].
  apply Math_min_bounds; [|rewrite of_Z_100; reflexivity].
  apply above_zero_signed in Hpos. rewrite of_Z_1, of_Z_100.
  apply (js_mul_signed false), (js_div_signed false). exact Hpos.
Qed.

Lemma or_zero_signed v :
  (forall x, v = Some x -> ~ negative x) -> signed false (or_zero v).
Proof.
  intros Hv. destruct v as [x|]; [|reflexivity].
  specialize (Hv x eq_refl). unfold or_zero.
  destruct x as [s|[|]| |[|] m e]; simpl in *; try reflexivity; destruct Hv; exact I.
Qed.

Lemma precipMm_signed vs acc :
  Forall (fun v => forall x, v = Some x -> ~ negative x) vs ->
  signed false acc ->
  signed false (fold_left (fun sum v => js_add sum (or_zero v)) vs acc).
Proof.
  intros Hvs. revert acc. induction Hvs as [|v vs Hv _ IH]; intros acc Hacc; [exact Hacc|].
  simpl. apply IH. apply js_add_signed; [exact Hacc | apply or_zero_signed; exact Hv].
Qed.

(** When no hourly amount of the response is negative (entries may be
    null or NaN), the reported precipitation is a number that is not below
    zero: never NaN, never negative, and +0 rather than -0. *)
Theorem precip24hr_never_negative data :
  Forall (fun v => forall x, v = Some x -> ~ negative x) (precipitation_values data) ->
  signed false (precip24hr (weather_of data))
  /\ js_ge (precip24hr (weather_of data)) (of_Z 0) = true
  /\ ~ negative (precip24hr (weather_of data)).
Proof.
  intros Hvs.
  assert (Hs : signed false (precip24hr (weather_of data))).
  { unfold weather_of, precipMm. cbn [precip24hr].
    fold (precipitation_values data). rewrite of_Z_100, MM_TO_INCHES_value.
    apply (js_div_signed false), Math_round_signed.
    apply (js_mul_signed false), (js_mul_signed false).
    apply precipMm_signed; [exact Hvs | reflexivity]. }
  split; [exact Hs|]. split; [apply signed_above_zero; exact Hs|].
  destruct (precip24hr (weather_of data)) as [s|s| |s m e]; simpl in *; subst; tauto.
Qed.

(* ===================================================================== *)
(** * Unit conversion: properties *)
(* ===================================================================== *)

Lemma number_signed x : isNaN x = false -> exists s, signed s x.
Proof.
  destruct x as [s|s| |s m e]; intros Hx; try discriminate; exists s; reflexivity.
Qed.

Lemma signed_number s x : signed s x -> isNaN x = false.
Proof. destruct x; simpl; intros Hs; [..|contradiction|]; reflexivity. Qed.

Lemma binary_normalize_number z e : isNaN (binary_normalize prec emax z e false) = false.
Proof.
  destruct z as [|p|p]; [reflexivity| |]; simpl;
    eapply signed_number, binary_round_signed.
Qed.

(** Adding a finite number never gives NaN. *)
Lemma js_add_number x sy my ey :
  isNaN x = false -> isNaN (js_add x (S754_finite sy my ey)) = false.
Proof.
  destruct x as [sx|sx| |sx mx ex]; intros Hx; try discriminate; try reflexivity.
  apply binary_normalize_number.
Qed.

Lemma js_mul_number x sy my ey :
  isNaN x = false -> isNaN (js_mul x (S754_finite sy my ey)) = false.
Proof.
  intros Hx. destruct (number_signed x Hx) as [s Hs].
  exact (signed_number _ _ (js_mul_signed s x sy my ey Hs)).
Qed.

Lemma js_div_number x sy my ey :
  isNaN x = false -> isNaN (js_div x (S754_finite sy my ey)) = false.
Proof.
  intros Hx. destruct (number_signed x Hx) as [s Hs].
  exact (signed_number _ _ (js_div_signed s x sy my ey Hs)).
Qed.

Lemma Math_round_number x : isNaN x = false -> isNaN (Math_round x) = false.
Proof.
  destruct x as [sx|sx| |sx mx ex]; intros Hx; try discriminate; try reflexivity.
  unfold Math_round. destruct (0 <=? ex); [reflexivity|].
  destruct (_ =? 0); [reflexivity|]. apply binary_normalize_number.
Qed.

Lemma finite_constant c :
  is_finite c = true -> exists s m e, c = S754_finite s m e.
Proof.
  destruct c as [s|s| |s m e]; try discriminate. intros _. exists s, m, e. reflexivity.
Qed.

(** A reading that is a number converts to a number: the temperature,
    dew point and wind speed shown are NaN only if the reading is. *)
Theorem conversions_give_numbers c :
  isNaN c = false ->
  (exists f, celsiusToFahrenheit (Some c) = Some f /\ isNaN f = false)
  /\ (exists mph, kphToMph (Some c) = Some mph /\ isNaN mph = false).
Proof.
  intros Hc.
  destruct (finite_constant (of_Z 9) eq_refl) as (s9 & m9 & e9 & H9).
  destruct (finite_constant (of_Z 5) eq_refl) as (s5 & m5 & e5 & H5).
  destruct (finite_constant (of_Z 32) eq_refl) as (s32 & m32 & e32 & H32).
  destruct (finite_constant (of_Z 10) eq_refl) as (s10 & m10 & e10 & H10).
  destruct (finite_constant (lit 621371 6) eq_refl) as (sk & mk & ek & Hk).
  split; (eexists; split; [reflexivity|]).
  - rewrite H9, H5, H32, H10.
    apply js_div_number, Math_round_number, js_mul_number, js_add_number,
      js_div_number, js_mul_number. exact Hc.
  - rewrite Hk, H10.
    apply js_div_number, Math_round_number, js_mul_number, js_mul_number. exact Hc.
Qed.

(* ===================================================================== *)
(** * The further properties on the sample sites and worlds *)
(* ===================================================================== *)

(** The sample store lists exactly the sites of its collection. *)
Lemma store0_mirrors : mirrors store0.
Proof.
  split; [exact sample_ids_distinct|].
  intros site. cbn [sites db store0]. split.
  - intros Hin. apply elem_of_cons in Hin as [->|Hin]; [reflexivity|].
    apply list_elem_of_singleton in Hin as ->. reflexivity.
  - intros Hlook. destruct (decide (site_id site = "a")) as [Ha|Ha].
    + rewrite Ha, lookup_insert_eq in Hlook.
      assert (Heq : site = site_a); [|rewrite Heq; left].
      apply (site_eta site "a"); [exact Ha | congruence].
    + rewrite lookup_insert_ne in Hlook by (unfold doc; congruence).
      destruct (decide (site_id site = "b")) as [Hb|Hb].
      * rewrite Hb, lookup_insert_eq in Hlook.
        assert (Heq : site = site_b); [|rewrite Heq; right; left].
        apply (site_eta site "b"); [exact Hb | congruence].
      * rewrite lookup_insert_ne in Hlook by (unfold doc; congruence).
        rewrite !lookup_insert_ne in Hlook by (unfold doc; discriminate).
        rewrite lookup_empty in Hlook. discriminate.
Defined.

Lemma store0_site_collection : site_collection (db store0).
Proof.
  intros id x Hlook. cbn [db store0] in Hlook.
  destruct (decide (id = "a")) as [->|Ha].
  { rewrite lookup_insert_eq in Hlook. injection Hlook as <-. do 4 eexists. reflexivity. }
  rewrite lookup_insert_ne in Hlook by (unfold doc; congruence).
  destruct (decide (id = "b")) as [->|Hb].
  { rewrite lookup_insert_eq in Hlook. injection Hlook as <-. do 4 eexists. reflexivity. }
  rewrite lookup_insert_ne in Hlook by (unfold doc; congruence).
  rewrite !lookup_insert_ne in Hlook by (unfold doc; discriminate).
  rewrite lookup_empty in Hlook. discriminate.
Defined.

(** Loading the sample store returns a list that mirrors its collection,
    with one site per document. *)
Lemma loadSites_lists_collection_witness :
  exists l,
    (loadSites (Resolved tt) store0).2 = Returned l
    /\ length l = 2%nat
    /\ mirrors {| db := db store0; sites := l |}.
Proof.
  destruct (loadSites_lists_collection (Resolved tt) store0 store0_site_collection)
    as (_ & l & Hl & Hids & Hm).
  exists l. split; [exact Hl|]. split; [|exact Hm].
  rewrite <- (length_map site_id), Hids. reflexivity.
Defined.

(** Adding Duluth under the new id "c" puts it at the end of the list. *)
Lemma add_keeps_mirror_witness :
  mirrors (add (Resolved "c") input_duluth store0).1
  /\ sites (add (Resolved "c") input_duluth store0).1
     = [site_a; site_b; with_id "c" input_duluth].
Proof.
  destruct (add_keeps_mirror (Resolved "c") input_duluth store0 store0_mirrors)
    as (Hm & Hadded & _).
  - intros id Hid. injection Hid as <-. reflexivity.
  - split; [exact Hm|]. destruct (Hadded "c" eq_refl) as (_ & Hsites & _). exact Hsites.
Defined.

(** Renaming site "a": the listed site and its document now are named
    "Fargo East", the state is still "ND", and list and collection are in
    step. *)
Lemma update_keeps_mirror_witness :
  mirrors (update (Resolved tt) "a" patch_rename store0).1
  /\ exists site',
       sites (update (Resolved tt) "a" patch_rename store0).1 !! 0%nat = Some site'
       /\ db (update (Resolved tt) "a" patch_rename store0).1 !! doc "sites" "a"
          = Some (SiteDoc "Fargo East" "ND" (site_lat site') (site_lon site'))
       /\ site_name site' = "Fargo East"
       /\ site_state site' = "ND".
Proof.
  destruct (update_keeps_mirror (Resolved tt) "a" patch_rename store0 store0_mirrors)
    as (Hm & Hset & _).
  split; [exact Hm|].
  destruct (Hset 0%nat site_a eq_refl eq_refl eq_refl)
    as (site' & Hlisted & Hstored & _ & Hname & Hstate & _).
  exists site'. split; [exact Hlisted|].
  simpl in Hname, Hstate. rewrite Hname, Hstate in Hstored.
  split; [exact Hstored|]. split; assumption.
Defined.

(** Removing site "a" keeps list and collection in step. *)
Lemma remove_keeps_mirror_witness : mirrors (remove (Resolved tt) "a" store0).1.
Proof. exact (remove_keeps_mirror (Resolved tt) "a" store0 store0_mirrors). Defined.

(** Adding Duluth as "c" and removing "c" gives back the sample store. *)
Lemma add_then_remove_witness :
  (remove (Resolved tt) "c" (add (Resolved "c") input_duluth store0).1).1 = store0.
Proof. exact (add_then_remove input_duluth "c" store0 store0_mirrors eq_refl). Defined.

(** A reload of the sample store returns its two sites. *)
Lemma reload_agrees_witness :
  exists l, loadSites (Resolved tt) store0 = (store0, Returned l) /\ l ≡ₚ [site_a; site_b].
Proof. exact (reload_agrees store0 store0_mirrors). Defined.

(** A cycle over "a" and "b", the fetch of "b" failing: one observation
    is appended, for "a". *)
Lemma cycle_appends_fetched_sites_witness :
  exists evs,
    trace (fetchAll timeline_b_fails (Some [site_a; site_b]) sys0).1 = evs
    /\ appended evs = [observation world_up site_a (weather_of sample_body)].
Proof.
  destruct (cycle_appends_fetched_sites timeline_b_fails [site_a; site_b] sys0 eq_refl)
    as (evs & Htrace & Happ & _).
  exists evs. split; [exact Htrace|]. rewrite Happ. reflexivity.
Defined.

(** The same cycle reports the failure for "b", by the name of the site. *)
Lemma cycle_reports_failures_witness :
  exists evs,
    trace (fetchAll timeline_b_fails (Some [site_a; site_b]) sys0).1 = evs
    /\ reported evs
       = [("Failed to fetch weather for Rochester:", Error "Weather API error: 500")].
Proof.
  destruct (cycle_reports_failures timeline_b_fails [site_a; site_b] sys0 eq_refl)
    as (evs & Htrace & Hrep & _).
  exists evs. split; [exact Htrace|]. rewrite Hrep. reflexivity.
Defined.

(** Firestore never answers the append for "a": the stale cache stays as
    it is and [fetching] stays true. *)
Lemma unfinished_cycle_keeps_cache_witness :
  weatherData (fetchAll (fun _ => world_append_pending) (Some [site_a]) sys_stale).1
  = weatherData sys_stale
  /\ fetching (fetchAll (fun _ => world_append_pending) (Some [site_a]) sys_stale).1 = true.
Proof.
  destruct (unfinished_cycle_keeps_cache (fun _ => world_append_pending) (Some [site_a])
              sys_stale ltac:(discriminate)) as (Hcache & _ & Hfetching).
  split; assumption.
Defined.

(** 0.06 in is classed no higher than 0.5 in. *)
Lemma getPrecipClass_monotone_witness :
  (class_rank (getPrecipClass (lit 6 2)) <= class_rank (getPrecipClass (lit 5 1)))%nat.
Proof. exact (getPrecipClass_monotone (lit 6 2) (lit 5 1) eq_refl). Defined.

(** The sample response is reported as an amount that is not below zero. *)
Lemma precip24hr_never_negative_witness :
  js_ge (precip24hr (weather_of sample_body)) (of_Z 0) = true.
Proof.
  destruct (precip24hr_never_negative sample_body) as (_ & Hge & _); [|exact Hge].
  repeat constructor; intros x Hx; injection Hx as <-; exact (fun H => H).
Defined.

(** 20 degrees Celsius and 20 km/h convert to numbers. *)
Lemma conversions_give_numbers_witness :
  (exists f, celsiusToFahrenheit (Some (of_Z 20)) = Some f /\ isNaN f = false)
  /\ (exists mph, kphToMph (Some (of_Z 20)) = Some mph /\ isNaN mph = false).
Proof. exact (conversions_give_numbers (of_Z 20) eq_refl). Defined.


(** The id "zz" is in no collection: updating or removing it leaves the
    sample store as it is. *)
Lemma unknown_id_is_noop_witness :
  (update (Resolved tt) "zz" patch_rename store0).1 = store0
  /\ (remove (Resolved tt) "zz" store0).1 = store0.
Proof.
  exact (unknown_id_is_noop (Resolved tt) "zz" patch_rename store0 store0_mirrors eq_refl).
Defined.

(** Site "a" listed twice, the second fetch failing: the cache holds null
    under "a" although the first fetch returned. *)
Lemma last_site_of_an_id_wins_witness :
  weatherData (fetchAll timeline_b_fails (Some [site_a; site_a]) sys0).1 !! "a"
  = Some None.
Proof.
  destruct (last_site_of_an_id_wins timeline_b_fails [site_a; site_a] sys0
              [site_a] site_a [] timeline_b_fails_settles eq_refl) as [Hlast _].
  - intros Hin. inversion Hin.
  - exact Hlast.
Defined.
